(** * Result materialisation of [pyquil.api._qpu]

    A shallow embedding of [decode_buffer], [_extract_memory_regions] (with
    its local helper [alloc]) and of the region part of [QPU.get_result],
    followed by the properties of the result-materialisation layer.

    Python dictionaries whose iteration order the code depends on
    ([memory_descriptors], [ro_sources], [sources], the inner
    [defaultdict(list)] and [regions]) are association lists in insertion
    order; [buffers], which is only looked up, is a [gmap]. Exceptions are
    the [Raise] results of a small error monad. *)

From Stdlib Require Import ZArith QArith Lia.
From stdpp Require Import gmap strings list fin_maps sorting.

Open Scope string_scope.
Open Scope list_scope.
Open Scope nat_scope.

(** ** Exceptions and the error monad *)

(** The three [ValueError]s the code can end with: the two it raises itself
    (lines 71 and 109) and numpy's own when the right-hand side of the slice
    assignment of line 113 cannot be broadcast. *)
Inductive value_error : Type :=
| UnexpectedMemoryType (ty : string)
| AttemptedToFill (region : string) (start stop region_width : nat)
| CouldNotBroadcast (src_rows dst_rows : nat).

Inductive exn : Type :=
| StopIteration
| KeyError (key : string)
| ValueError (msg : value_error).

Inductive result (A : Type) : Type :=
| Ok (a : A)
| Raise (e : exn).
Arguments Ok {A} a.
Arguments Raise {A} e.

#[global] Instance result_ret : MRet result := fun A a => Ok a.
#[global] Instance result_bind : MBind result := fun A B f m =>
  match m with
  | Ok a => f a
  | Raise e => Raise e
  end.

Definition is_ok {A} (r : result A) : bool :=
  match r with Ok _ => true | Raise _ => false end.

(** ** Numbers

    [real] stands for the IEEE values numpy stores: the parts of a
    [complex64] sample and the cells of a [float64] region (every
    [float32] is a [float64], so that widening is the identity).
    [real_of_int] is the conversion of an [int32] sample stored in a
    [float64] region, [int_of_real] the C cast numpy applies when a real
    is stored in an [int64] region. *)
Class FloatModel : Type := {
  real : Type;
  real_of_int : Z -> real;
  int_of_real : real -> Z;
}.

(** The rationals are a model of the finite values: every finite IEEE
    value is a rational, [int32] samples are below [2 ^ 53] and so are
    converted exactly, and the cast of a finite real whose integer part
    fits 64 bits truncates toward zero. NaN, the infinities and the casts
    that leave the 64-bit range (undefined in C) have no counterpart here;
    the model is used for the concrete inputs below only, all of them
    small. *)
Definition Q_model : FloatModel := {|
  real := Q;
  real_of_int := inject_Z;
  int_of_real := fun q => Z.quot (Qnum q) (Z.pos (Qden q));
|}.

(** ** Python dictionaries in insertion order *)

Definition dict (V : Type) : Type := list (string * V).

Fixpoint dict_get {V} (k : string) (d : dict V) : option V :=
  match d with
  | [] => None
  | (k', v) :: d' => if decide (k' = k) then Some v else dict_get k d'
  end.

Definition dict_mem {V} (k : string) (d : dict V) : bool :=
  match dict_get k d with Some _ => true | None => false end.

(** [d[k] = v]: an existing key keeps its place, a new one goes last. *)
Fixpoint dict_set {V} (k : string) (v : V) (d : dict V) : dict V :=
  match d with
  | [] => [(k, v)]
  | (k', v') :: d' =>
      if decide (k' = k) then (k', v) :: d' else (k', v') :: dict_set k v d'
  end.

(** In-place change of the value stored under an existing key. *)
Fixpoint dict_alter {V} (f : V -> V) (k : string) (d : dict V) : dict V :=
  match d with
  | [] => []
  | (k', v) :: d' =>
      if decide (k' = k) then (k', f v) :: d' else (k', v) :: dict_alter f k d'
  end.

(** [d[key].append(x)] on a [defaultdict(list)]: a missing key is created,
    last, with the one-element list. *)
Fixpoint defaultdict_append {A} (key : string) (x : A) (d : dict (list A))
  : dict (list A) :=
  match d with
  | [] => [(key, [x])]
  | (k, l) :: d' =>
      if decide (k = key) then (k, l ++ [x]) :: d'
      else (k, l) :: defaultdict_append key x d'
  end.

(** ** Program metadata *)

Module ParameterSpec.
Record t : Type := mk { type : string; length : nat }.
End ParameterSpec.

Record MemoryReference : Type := MRef { name : string; offset : nat }.

#[global] Instance MemoryReference_eq_dec : EqDecision MemoryReference.
Proof. solve_decision. Defined.

(** [sorted(zip((m.offset for m in mref_list), mref_list))]: the references
    of one lane set have one name, so pairs with equal offsets are equal and
    Python's stable sort orders by offset alone. *)
Fixpoint insert_by_offset (m : MemoryReference) (l : list MemoryReference)
  : list MemoryReference :=
  match l with
  | [] => [m]
  | x :: l' =>
      if decide (offset m <= offset x) then m :: l
      else x :: insert_by_offset m l'
  end.

Definition sort_by_offset (l : list MemoryReference) : list MemoryReference :=
  foldr insert_by_offset [] l.

(** [l[i::step]] for [step >= 1] ([step] is a lane count, never 0). *)
Fixpoint every_nth {A} (skip step : nat) (l : list A) : list A :=
  match l with
  | [] => []
  | x :: l' =>
      match skip with
      | 0 => x :: every_nth (step - 1) step l'
      | S k => every_nth k step l'
      end
  end.

(** A numpy array of one or two dimensions: shape [(N,)] or [(N, w)]. *)
Inductive shaped (A : Type) : Type :=
| Dim1 (xs : list A)
| Dim2 (w : nat) (rows : list (list A)).
#[global] Arguments Dim1 {A} xs.
#[global] Arguments Dim2 {A} w rows.

Definition shape0 {A} (a : shaped A) : nat :=
  match a with
  | Dim1 xs => List.length xs
  | Dim2 _ rows => List.length rows
  end.

Definition shaped_wf {A} (a : shaped A) : Prop :=
  match a with
  | Dim1 _ => True
  | Dim2 w rows => Forall (fun row => List.length row = w) rows
  end.

(** [buf[:, None]] when [buf.ndim == 1]. *)
Definition as_2d {A} (a : shaped A) : nat * list (list A) :=
  match a with
  | Dim1 xs => (1, (fun x => [x]) <$> xs)
  | Dim2 w rows => (w, rows)
  end.

Inductive np_dtype : Type := int64 | float64.

Section Arrays.
Context `{FloatModel}.

(** ** Decoded buffers *)

Definition complex : Type := real * real.

(** What [decode_buffer] returns: [int32] or [complex64] samples. *)
Inductive buffer : Type :=
| IntBuffer (a : shaped Z)
| ComplexBuffer (a : shaped complex).

Definition buffer_shape0 (b : buffer) : nat :=
  match b with
  | IntBuffer a => shape0 a
  | ComplexBuffer a => shape0 a
  end.

Definition buffer_wf (b : buffer) : Prop :=
  match b with
  | IntBuffer a => shaped_wf a
  | ComplexBuffer a => shaped_wf a
  end.

(** A scalar of the real-valued matrix that is copied into a region. *)
Inductive sample : Type :=
| SInt (z : Z)
| SReal (r : real).

(** [np.column_stack((buf.real, buf.imag))] on a two-dimensional [buf]:
    the columns of the real parts, then those of the imaginary parts. *)
Definition column_stack_real_imag (row : list complex) : list sample :=
  (SReal ∘ fst <$> row) ++ (SReal ∘ snd <$> row).

(** Lines 100-105: the buffer as a real matrix, with its width. *)
Definition widen (b : buffer) : nat * list (list sample) :=
  match b with
  | IntBuffer a =>
      let '(w, rows) := as_2d a in (w, fmap (M:=list) SInt <$> rows)
  | ComplexBuffer a =>
      let '(w, rows) := as_2d a in (w + w, column_stack_real_imag <$> rows)
  end.

(** ** Assembled regions *)

(** A cell of a region. [np.ndarray(shape, dtype)] does not initialise
    its memory: a cell is [Uninit] until it is assigned. *)
Inductive cell : Type :=
| Uninit
| I64 (z : Z)
| F64 (r : real).

Record ndarray : Type := NDArray {
  arr_dtype : np_dtype;
  arr_width : nat;
  arr_rows : list (list cell);
}.

Definition arr_shots (a : ndarray) : nat := List.length (arr_rows a).

Definition ndarray_wf (a : ndarray) : Prop :=
  Forall (fun row => List.length row = arr_width a) (arr_rows a).

(** Same number of shot rows, declared width and element type. *)
Definition same_shape (a a' : ndarray) : Prop :=
  arr_shots a' = arr_shots a /\ arr_width a' = arr_width a
  /\ arr_dtype a' = arr_dtype a.

(** [a[:, start:stop]] *)
Definition arr_columns (a : ndarray) (start stop : nat) : list (list cell) :=
  (fun row => take (stop - start) (drop start row)) <$> arr_rows a.

(** [np.zeros((n, w), dtype)] *)
Definition np_zeros (n w : nat) (d : np_dtype) : ndarray :=
  let zero := match d with int64 => I64 0 | float64 => F64 (real_of_int 0) end in
  NDArray d w (replicate n (replicate w zero)).

(** Conversion of a sample to the element type of the region it is
    assigned into. *)
Definition store (d : np_dtype) (v : sample) : cell :=
  match d, v with
  | int64, SInt z => I64 z
  | int64, SReal r => I64 (int_of_real r)
  | float64, SInt z => F64 (real_of_int z)
  | float64, SReal r => F64 r
  end.

Definition set_columns (start : nat) (vals row : list cell) : list cell :=
  take start row ++ vals ++ drop (start + List.length vals) row.

(** [a[:, start:stop] = src] with numpy's broadcasting along the rows:
    [src] has as many rows as [a], or one row that every row of [a]
    receives. The column counts agree at the call ([stop - start] is the
    width of [src]). *)
Definition assign_columns (a : ndarray) (start : nat) (src : list (list sample))
  : result ndarray :=
  let d := arr_dtype a in
  if decide (List.length src = arr_shots a) then
    Ok (NDArray d (arr_width a)
          (zip_with (fun row vals => set_columns start (store d <$> vals) row)
                    (arr_rows a) src))
  else
    match src with
    | [vals] =>
        Ok (NDArray d (arr_width a)
              (set_columns start (store d <$> vals) <$> arr_rows a))
    | _ => Raise (ValueError (CouldNotBroadcast (List.length src) (arr_shots a)))
    end.

(** ** [decode_buffer] *)

Section Decode.
(** The payload of an [ExecutionResult] and its two conversions belong
    to [qcs_sdk]. *)
Context {payload : Type}.
Variable to_complex32 : payload -> list complex.
Variable to_i32 : payload -> list Z.

Record ExecutionResult : Type := { dtype : string; data : payload }.

Definition decode_buffer (raw : ExecutionResult) : buffer :=
  if decide (dtype raw = "complex") then
    ComplexBuffer (Dim1 (to_complex32 (data raw)))
  else if decide (dtype raw = "integer") then
    IntBuffer (Dim1 (to_i32 (data raw)))
  else IntBuffer (Dim1 []).
End Decode.

(** ** [_extract_memory_regions] *)

Definition dtype_table : dict np_dtype :=
  [("BIT", int64); ("INTEGER", int64); ("REAL", float64); ("FLOAT", float64)].

Definition alloc (spec : ParameterSpec.t) (num_shots : nat) : result ndarray :=
  match dict_get (ParameterSpec.type spec) dtype_table with
  | Some d =>
      Ok (NDArray d (ParameterSpec.length spec)
            (replicate num_shots (replicate (ParameterSpec.length spec) Uninit)))
  | None => Raise (ValueError (UnexpectedMemoryType (ParameterSpec.type spec)))
  end.

(** [sources]: region name, then buffer key, then the references. *)
Definition sources_t : Type := dict (dict (list MemoryReference)).

Definition add_source (sources : sources_t) (item : MemoryReference * string)
  : sources_t :=
  let '(mref, key) := item in
  if dict_mem (name mref) sources then
    dict_alter (defaultdict_append key mref) (name mref) sources
  else sources.

(** Lines 77-83. *)
Definition group_sources (memory_descriptors : dict ParameterSpec.t)
    (ro_sources : list (MemoryReference * string)) : sources_t :=
  foldl add_source ((fun d => (d.1, [])) <$> memory_descriptors) ro_sources.

Definition lookup_buffer (key : string) (buffers : gmap string buffer)
  : result buffer :=
  match buffers !! key with
  | Some b => Ok b
  | None => Raise (KeyError key)
  end.

(** Lines 89-91. *)
Definition infer_num_shots (sources : sources_t) (buffers : gmap string buffer)
  : result nat :=
  match sources with
  | [] => Raise StopIteration
  | (mref_name, mref_dict) :: _ =>
      match mref_dict with
      | [] => Raise StopIteration
      | (buf_key, mref_list) :: _ =>
          buf ← lookup_buffer buf_key buffers;
          Ok (buffer_shape0 buf / List.length mref_list)
      end
  end.

(** Lines 107-113, for the lane of index [i]. *)
Definition place_lane (mref_name : string) (region_width num_lanes width : nat)
    (buf : list (list sample)) (region : ndarray) (i : nat)
    (mref : MemoryReference) : result ndarray :=
  let end_ := offset mref + width in
  if decide (region_width < end_) then
    Raise (ValueError (AttemptedToFill mref_name (offset mref) end_ region_width))
  else assign_columns region (offset mref) (every_nth i num_lanes buf).

(** Line 106: [for i, mref in enumerate(sorted_mref)], from index [i]. *)
Fixpoint place_lanes (mref_name : string) (region_width num_lanes width : nat)
    (buf : list (list sample)) (i : nat) (sorted_mref : list MemoryReference)
    (region : ndarray) : result ndarray :=
  match sorted_mref with
  | [] => Ok region
  | mref :: rest =>
      region' ← place_lane mref_name region_width num_lanes width buf region i mref;
      place_lanes mref_name region_width num_lanes width buf (S i) rest region'
  end.

(** Lines 97-113: one lane set. *)
Definition place_lane_set (buffers : gmap string buffer) (mref_name : string)
    (region_width : nat) (region : ndarray)
    (item : string * list MemoryReference) : result ndarray :=
  let '(key, mref_list) := item in
  let num_lanes := List.length mref_list in
  let sorted_mref := sort_by_offset mref_list in
  buf ← lookup_buffer key buffers;
  let '(width, rows) := widen buf in
  place_lanes mref_name region_width num_lanes width rows 0 sorted_mref region.

(** Line 96: the loop over the lane sets of one region. *)
Fixpoint place_lane_sets (buffers : gmap string buffer) (mref_name : string)
    (region_width : nat) (mref_dict : dict (list MemoryReference))
    (region : ndarray) : result ndarray :=
  match mref_dict with
  | [] => Ok region
  | item :: rest =>
      region' ← place_lane_set buffers mref_name region_width region item;
      place_lane_sets buffers mref_name region_width rest region'
  end.

(** Lines 94-113: one region. *)
Definition assemble_region (memory_descriptors : dict ParameterSpec.t)
    (buffers : gmap string buffer) (num_shots : nat) (mref_name : string)
    (mref_dict : dict (list MemoryReference)) : result ndarray :=
  match dict_get mref_name memory_descriptors with
  | None => Raise (KeyError mref_name)
  | Some spec =>
      region ← alloc spec num_shots;
      place_lane_sets buffers mref_name (ParameterSpec.length spec) mref_dict region
  end.

(** Line 93: the loop over [sources.items()]. *)
Fixpoint assemble_regions (memory_descriptors : dict ParameterSpec.t)
    (buffers : gmap string buffer) (num_shots : nat) (sources : sources_t)
    (regions : dict ndarray) : result (dict ndarray) :=
  match sources with
  | [] => Ok regions
  | (mref_name, mref_dict) :: rest =>
      region ← assemble_region memory_descriptors buffers num_shots mref_name mref_dict;
      assemble_regions memory_descriptors buffers num_shots rest
        (dict_set mref_name region regions)
  end.

Definition _extract_memory_regions (memory_descriptors : dict ParameterSpec.t)
    (ro_sources : list (MemoryReference * string))
    (buffers : gmap string buffer) : result (dict ndarray) :=
  let sources := group_sources memory_descriptors ro_sources in
  num_shots ← infer_num_shots sources buffers;
  assemble_regions memory_descriptors buffers num_shots sources [].

(** ** [QPU.get_result], lines 221-232: the readout data *)

Section GetResult.
Context {payload : Type}.
Variable to_complex32 : payload -> list complex.
Variable to_i32 : payload -> list Z.

Definition get_result_memory (memory_descriptors : dict ParameterSpec.t)
    (ro_sources : list (MemoryReference * string))
    (results_buffers : gmap string (@ExecutionResult payload))
  : result (dict ndarray) :=
  let decoded_buffers := decode_buffer to_complex32 to_i32 <$> results_buffers in
  let result_memory : dict ndarray := [] in
  if decide (size decoded_buffers ≠ 0) then
    extracted ← _extract_memory_regions memory_descriptors ro_sources decoded_buffers;
    Ok (foldl (fun m item => dict_set item.1 item.2 m) result_memory extracted)
  else if decide (ro_sources = []) then
    Ok (dict_set "ro" (np_zeros 0 0 int64) result_memory)
  else Ok result_memory.
End GetResult.

End Arrays.

#[global] Arguments ExecutionResult payload : clear implicits.

(** ** Lane sets, as the specification words them

    The lane set of a region and a buffer key: the references of
    [ro_sources] that name the region and read that buffer, in the order of
    [ro_sources]. [_extract_memory_regions] never builds it this way; it is
    compared with [group_sources] below. *)
Definition lane_set (region key : string)
    (ro_sources : list (MemoryReference * string)) : list MemoryReference :=
  (filter (fun item => name item.1 = region /\ item.2 = key) ro_sources).*1.

(** What the loop of lines 78-83 does to the inner dictionary of one
    region. *)
Definition lane_step (region : string) (d : dict (list MemoryReference))
    (item : MemoryReference * string) : dict (list MemoryReference) :=
  if decide (name item.1 = region) then defaultdict_append item.2 item.1 d else d.

Definition lane_sets_of (region : string)
    (ro_sources : list (MemoryReference * string)) : dict (list MemoryReference) :=
  foldl (lane_step region) [] ro_sources.

(** The layout in which each complex sample becomes two adjacent real
    columns, its real part and then its imaginary part. *)
Definition interleave_real_imag `{FloatModel} (row : list complex) : list sample :=
  row ≫= (fun c => [SReal c.1; SReal c.2]).

(** The values of a 32-bit signed integer. *)
Definition is_int32 (z : Z) : Prop := (- 2 ^ 31 <= z < 2 ^ 31)%Z.

(** The rows of [a'] and of [a] have the same first [p] cells. *)
Definition rows_agree `{FloatModel} (p : nat) (a a' : ndarray) : Prop :=
  forall s, take p <$> (arr_rows a' !! s) = take p <$> (arr_rows a !! s).

(** ** Concrete inputs

    Inputs on which the statements below are evaluated, over the rational
    model of the reals. *)
Section ExampleInputs.
#[local] Existing Instance Q_model.

Definition BIT (len : nat) : ParameterSpec.t := ParameterSpec.mk "BIT" len.
Definition INTEGER (len : nat) : ParameterSpec.t := ParameterSpec.mk "INTEGER" len.
Definition REAL (len : nat) : ParameterSpec.t := ParameterSpec.mk "REAL" len.

(** Three lanes of the region "ro" multiplexed in the buffer "q0". *)
Definition ro_three_lanes : list (MemoryReference * string) :=
  [(MRef "ro" 2, "q0"); (MRef "ro" 0, "q0"); (MRef "ro" 1, "q0")].

(** A buffer of shape (12, 1). *)
Definition buffer_12_1 : buffer :=
  IntBuffer (Dim2 1 [[1]; [0]; [1]; [1]; [0]; [0]; [0]; [1]; [1]; [0]; [1]; [0]]%Z).

(** Its four shots of three lanes. *)
Definition region_4_3 : ndarray :=
  NDArray int64 3 [[I64 1; I64 0; I64 1]; [I64 1; I64 0; I64 0];
                   [I64 0; I64 1; I64 1]; [I64 0; I64 1; I64 0]].

(** A region of shape (4, 2) that nothing was written into. *)
Definition region_4_2_unset : ndarray :=
  NDArray float64 2 (replicate 4 [Uninit; Uninit]).

(** A buffer of shape (6,). *)
Definition buffer_6 : buffer := IntBuffer (Dim1 [1; 0; 1; 1; 0; 0]%Z).

Definition region_2_3 : ndarray :=
  NDArray int64 3 [[I64 1; I64 0; I64 1]; [I64 1; I64 0; I64 0]].

(** A buffer of shape (2, 2). *)
Definition buffer_2_2 : buffer := IntBuffer (Dim2 2 [[1; 0]; [1; 1]]%Z).

(** A stand-in for the payload of the SDK: a list of words, read as
    32-bit signed integers or as complex samples without imaginary part. *)
Definition words_to_i32 (p : list Z) : list Z :=
  (fun z => ((z + 2 ^ 31) mod 2 ^ 32 - 2 ^ 31)%Z) <$> p.

Definition words_to_complex32 (p : list Z) : list complex :=
  (fun z => (inject_Z z, 0%Q)) <$> p.

(** One buffer per slot: the region "ro" of length 2 read from "q0" and
    "q1", three shots each. *)
Definition ro_two_buffers : list (MemoryReference * string) :=
  [(MRef "ro" 0, "q0"); (MRef "ro" 1, "q1")].

Definition buffers_q0_q1 : gmap string buffer :=
  {[ "q0" := IntBuffer (Dim1 [1; 0; 1]%Z); "q1" := IntBuffer (Dim1 [0; 0; 1]%Z) ]}.

Definition region_3_2 : ndarray :=
  NDArray int64 2 [[I64 1; I64 0]; [I64 0; I64 0]; [I64 1; I64 1]].

(** The same two buffers read into slots 0 and 2 of a region of length 3. *)
Definition ro_with_gap : list (MemoryReference * string) :=
  [(MRef "ro" 0, "q0"); (MRef "ro" 2, "q1")].

Definition region_3_3_gap : ndarray :=
  NDArray int64 3 [[I64 1; Uninit; I64 0]; [I64 0; Uninit; I64 0];
                   [I64 1; Uninit; I64 1]].

(** Two regions whose buffers disagree on the number of shots. *)
Definition buffers_3_and_2 : gmap string buffer :=
  {[ "q0" := IntBuffer (Dim1 [1; 0; 1]%Z); "q1" := IntBuffer (Dim1 [0; 1]%Z) ]}.

(** Two declared regions, each read from a buffer of its own: two shots. *)
Definition ro_aux_and_ro : list (MemoryReference * string) :=
  [(MRef "aux" 0, "q0"); (MRef "ro" 6, "q1")].

Definition buffers_2_and_2_2 : gmap string buffer :=
  {[ "q0" := IntBuffer (Dim1 [1; 0]%Z); "q1" := buffer_2_2 ]}.

Definition OCTAL (len : nat) : ParameterSpec.t := ParameterSpec.mk "OCTAL" len.

(** Raw results of a measurement of two slots and of a capture, over the
    stand-in payload. *)
Definition raw_q0_q1 : gmap string (ExecutionResult (list Z)) :=
  {[ "q0" := {| dtype := "integer"; data := [1; 0; 1]%Z |};
     "q1" := {| dtype := "integer"; data := [0; 0; 1]%Z |} ]}.

Definition raw_capture : gmap string (ExecutionResult (list Z)) :=
  {[ "q0_iq" := {| dtype := "complex"; data := [3; 5]%Z |} ]}.

Definition region_iq : ndarray :=
  NDArray float64 2 [[F64 3%Q; F64 0%Q]; [F64 5%Q; F64 0%Q]].
End ExampleInputs.

(** The order in which line 99 sorts the references of a lane set. *)
Definition offset_le (m1 m2 : MemoryReference) : Prop := offset m1 <= offset m2.

(** [a[s, c]] *)
Definition arr_cell `{FloatModel} (a : ndarray) (s c : nat) : option cell :=
  row ← arr_rows a !! s; row !! c.

(** The row of [src] that row [s] of a region of [num_shots] rows receives
    in the assignment of line 113: row [s] of [src], or the single row of
    [src] when numpy broadcasts it. *)
Definition broadcast_row {A} (num_shots : nat) (src : list A) (s : nat)
  : option A :=
  if decide (length src = num_shots) then src !! s
  else match src with [x] => Some x | _ => None end.

(** Every decoded buffer is rectangular, as a numpy array is. *)
Definition buffers_wf `{FloatModel} (buffers : gmap string buffer) : Prop :=
  forall key buf, buffers !! key = Some buf -> buffer_wf buf.

(** No lane of the lane set [item] covers column [c]. *)
Definition lane_set_misses `{FloatModel} (buffers : gmap string buffer) (c : nat)
    (item : string * list MemoryReference) : Prop :=
  forall buf,
    buffers !! item.1 = Some buf ->
    Forall (fun mref => ~ (offset mref <= c < offset mref + (widen buf).1)) item.2.

(** A readout source whose columns would end past the declared length of
    the region it names: the condition of line 107. *)
Definition lane_overflows `{FloatModel} (memory_descriptors : dict ParameterSpec.t)
    (buffers : gmap string buffer) (item : MemoryReference * string) : Prop :=
  exists spec buf,
    dict_get (name item.1) memory_descriptors = Some spec
    /\ buffers !! item.2 = Some buf
    /\ ParameterSpec.length spec < offset item.1 + (widen buf).1.

(** Every readout source of a declared region reads a buffer that is
    there, with [num_shots] rows for each reference of its lane set. *)
Definition buffers_fit `{FloatModel} (memory_descriptors : dict ParameterSpec.t)
    (ro_sources : list (MemoryReference * string))
    (buffers : gmap string buffer) (num_shots : nat) : Prop :=
  Forall (fun item =>
            is_Some (dict_get (name item.1) memory_descriptors) ->
            exists buf,
              buffers !! item.2 = Some buf
              /\ buffer_shape0 buf
                 = num_shots * length (lane_set (name item.1) item.2 ro_sources))
         ro_sources.

(** What in the arguments of [_extract_memory_regions] an exception of
    the call goes back to. *)
Definition exception_cause `{FloatModel} (memory_descriptors : dict ParameterSpec.t)
    (ro_sources : list (MemoryReference * string))
    (buffers : gmap string buffer) (e : exn) : Prop :=
  match e with
  | StopIteration =>
      memory_descriptors = []
      \/ exists rname spec rest,
          memory_descriptors = (rname, spec) :: rest
          /\ Forall (fun item => name item.1 <> rname) ro_sources
  | KeyError key =>
      exists mref,
        (mref, key) ∈ ro_sources
        /\ is_Some (dict_get (name mref) memory_descriptors)
        /\ buffers !! key = None
  | ValueError (UnexpectedMemoryType ty) =>
      exists rname spec,
        dict_get rname memory_descriptors = Some spec
        /\ ParameterSpec.type spec = ty
        /\ ty ∉ ["BIT"; "INTEGER"; "REAL"; "FLOAT"]
  | ValueError (AttemptedToFill rname start stop region_width) =>
      exists mref key spec buf,
        (mref, key) ∈ ro_sources
        /\ name mref = rname /\ offset mref = start
        /\ dict_get rname memory_descriptors = Some spec
        /\ ParameterSpec.length spec = region_width
        /\ buffers !! key = Some buf
        /\ stop = start + (widen buf).1
        /\ region_width < stop
  | ValueError (CouldNotBroadcast src_rows dst_rows) =>
      exists mref key buf i,
        (mref, key) ∈ ro_sources
        /\ is_Some (dict_get (name mref) memory_descriptors)
        /\ buffers !! key = Some buf
        /\ sort_by_offset (lane_set (name mref) key ro_sources) !! i = Some mref
        /\ src_rows
           = length (every_nth i (length (lane_set (name mref) key ro_sources))
                       (widen buf).2)
        /\ infer_num_shots (group_sources memory_descriptors ro_sources) buffers
           = Ok dst_rows
        /\ src_rows <> dst_rows /\ src_rows <> 1
  end.

(** * Properties *)

(** ** The error monad *)

Lemma bind_Ok_inv {A B} (m : result A) (f : A -> result B) (b : B) :
  m ≫= f = Ok b -> exists a, m = Ok a /\ f a = Ok b.
Proof. destruct m as [a|e]; [by exists a | done]. Qed.

Lemma is_ok_false {A} (r : result A) : is_ok r = false <-> forall a, r <> Ok a.
Proof.
  destruct r as [a|e]; simpl; split; try done.
  intros Hne. by destruct (Hne a).
Qed.

(** ** Dictionaries *)

Section DictFacts.
Context {V : Type}.
Implicit Types (d : dict V) (k : string) (v : V).

Lemma dict_get_Some_elem k v d : dict_get k d = Some v -> (k, v) ∈ d.
Proof.
  induction d as [|[k' v'] d IH]; simpl; [done|].
  case_decide as Hk.
  - intros [= ->]. rewrite Hk. left.
  - intros Hget. right. auto.
Qed.

Lemma dict_get_None k d : dict_get k d = None <-> k ∉ d.*1.
Proof.
  induction d as [|[k' v'] d IH]; simpl.
  - split; [intros _; apply not_elem_of_nil | done].
  - rewrite not_elem_of_cons. case_decide as Hk; subst.
    + split; [done | by intros [? _]].
    + rewrite IH. split; [by intros ? | by intros [_ ?]].
Qed.

Lemma dict_mem_true k d : dict_mem k d = true <-> k ∈ d.*1.
Proof.
  unfold dict_mem. destruct (dict_get k d) eqn:E.
  - split; [intros _|done]. apply dict_get_Some_elem in E.
    apply list_elem_of_fmap. by exists (k, v).
  - apply dict_get_None in E. split; [done | by intros ?].
Qed.

Lemma dict_get_NoDup k v d : NoDup d.*1 -> (k, v) ∈ d -> dict_get k d = Some v.
Proof.
  induction d as [|[k' v'] d IH]; simpl; intros Hnd Hin.
  - by apply elem_of_nil in Hin.
  - apply NoDup_cons in Hnd as [Hk' Hnd].
    apply elem_of_cons in Hin as [[= <- <-]|Hin]; [by rewrite decide_True|].
    rewrite decide_False; [auto|]. intros ->. apply Hk'.
    apply list_elem_of_fmap. by exists (k, v).
Qed.

Lemma dict_alter_keys (f : V -> V) k d : (dict_alter f k d).*1 = d.*1.
Proof.
  induction d as [|[k' v'] d IH]; simpl; [done|].
  case_decide; simpl; [done | by f_equal].
Qed.

Lemma dict_get_alter (f : V -> V) k n d :
  dict_get n (dict_alter f k d)
  = if decide (k = n) then f <$> dict_get n d else dict_get n d.
Proof.
  induction d as [|[k' v'] d IH]; simpl; [by case_decide|].
  destruct (decide (k' = k)) as [->|Hk']; simpl.
  - by destruct (decide (k = n)).
  - destruct (decide (k' = n)) as [->|Hn]; [by rewrite decide_False|].
    apply IH.
Qed.

Lemma dict_set_fresh k v d : k ∉ d.*1 -> dict_set k v d = d ++ [(k, v)].
Proof.
  induction d as [|[k' v'] d IH]; simpl; [done|].
  rewrite not_elem_of_cons. intros [Hne Hk].
  rewrite decide_False; [by rewrite IH | done].
Qed.

Lemma dict_set_keys_elem k k' v d :
  k' ∈ (dict_set k v d).*1 <-> k' = k \/ k' ∈ d.*1.
Proof.
  induction d as [|[k0 v0] d IH]; simpl.
  - rewrite elem_of_cons. split; intros [?|?]; auto.
  - case_decide as Hk; simpl.
    + subst k0. rewrite !elem_of_cons. split; [intros [?|?]; auto | intros [?|[?|?]]; auto].
    + rewrite !elem_of_cons, IH. split; [intros [?|[?|?]]; auto | intros [?|[?|?]]; auto].
Qed.

Lemma dict_set_Forall (P : string * V -> Prop) k v d :
  P (k, v) -> Forall P d -> Forall P (dict_set k v d).
Proof.
  intros Hkv. induction 1 as [|[k' v'] d Hx Hd IH]; simpl.
  - by constructor.
  - case_decide; subst; constructor; auto.
Qed.
End DictFacts.

(** ** Grouping of the readout sources (lines 77-83) *)

Lemma add_source_keys sources item : (add_source sources item).*1 = sources.*1.
Proof.
  destruct item as [mref key]. unfold add_source.
  destruct (dict_mem (name mref) sources); [apply dict_alter_keys | done].
Qed.

Lemma foldl_add_source_keys ro sources :
  (foldl add_source sources ro).*1 = sources.*1.
Proof.
  revert sources. induction ro as [|item ro IH]; intros sources; simpl; [done|].
  by rewrite IH, add_source_keys.
Qed.

Lemma init_sources_keys (memory_descriptors : dict ParameterSpec.t) :
  ((fun d => (d.1, @nil (string * list MemoryReference))) <$> memory_descriptors).*1
  = memory_descriptors.*1.
Proof. rewrite <- list_fmap_compose. by apply list_fmap_ext. Qed.

Lemma group_sources_keys memory_descriptors ro :
  (group_sources memory_descriptors ro).*1 = memory_descriptors.*1.
Proof.
  unfold group_sources. by rewrite foldl_add_source_keys, init_sources_keys.
Qed.

(** A reference to a region that is not declared changes nothing. *)
Lemma add_source_stale sources mref key :
  name mref ∉ sources.*1 -> add_source sources (mref, key) = sources.
Proof.
  intros Hstale. unfold add_source.
  destruct (dict_mem (name mref) sources) eqn:E; [|done].
  by apply dict_mem_true in E.
Qed.

Lemma dict_get_add_source n sources item :
  dict_get n (add_source sources item)
  = (fun d => lane_step n d item) <$> dict_get n sources.
Proof.
  destruct item as [mref key]. unfold add_source, lane_step. simpl.
  destruct (dict_mem (name mref) sources) eqn:E.
  - rewrite dict_get_alter. case_decide; [done|].
    by destruct (dict_get n sources).
  - case_decide as Hn; [|by destruct (dict_get n sources)].
    subst n. unfold dict_mem in E. by destruct (dict_get (name mref) sources).
Qed.

Lemma dict_get_foldl_add_source n ro sources :
  dict_get n (foldl add_source sources ro)
  = (fun d => foldl (lane_step n) d ro) <$> dict_get n sources.
Proof.
  revert sources. induction ro as [|item ro IH]; intros sources; simpl.
  - by destruct (dict_get n sources).
  - rewrite IH, dict_get_add_source. by destruct (dict_get n sources).
Qed.

Lemma dict_get_init_sources n (memory_descriptors : dict ParameterSpec.t) :
  dict_get n ((fun d => (d.1, [])) <$> memory_descriptors)
  = (fun _ => @nil (string * list MemoryReference)) <$> dict_get n memory_descriptors.
Proof.
  induction memory_descriptors as [|[k v] d IH]; simpl; [done|].
  by case_decide.
Qed.

(** The inner dictionary of a declared region is [lane_sets_of] it. *)
Lemma group_sources_lookup n memory_descriptors ro spec :
  dict_get n memory_descriptors = Some spec ->
  dict_get n (group_sources memory_descriptors ro) = Some (lane_sets_of n ro).
Proof.
  intros Hn. unfold group_sources.
  by rewrite dict_get_foldl_add_source, dict_get_init_sources, Hn.
Qed.

(** The first entry of [sources] belongs to the first descriptor. *)
Lemma group_sources_head n spec rest ro :
  exists sources',
    group_sources ((n, spec) :: rest) ro = (n, lane_sets_of n ro) :: sources'.
Proof.
  pose proof (group_sources_keys ((n, spec) :: rest) ro) as Hkeys.
  pose proof (group_sources_lookup n ((n, spec) :: rest) ro spec) as Hget.
  destruct (group_sources ((n, spec) :: rest) ro) as [|[n' d'] sources']; [done|].
  simpl in Hkeys, Hget. injection Hkeys as Hn' _. subst n'.
  rewrite !decide_True in Hget; [|done..]. specialize (Hget eq_refl).
  injection Hget as Hd'. subst d'. by exists sources'.
Qed.

(** *** The inner dictionaries hold the lane sets *)

Lemma dict_get_defaultdict_append {A} key key' (x : A) d :
  dict_get key' (defaultdict_append key x d)
  = if decide (key = key') then Some (default [] (dict_get key' d) ++ [x])
    else dict_get key' d.
Proof.
  induction d as [|[k l] d IH]; simpl.
  - by case_decide.
  - destruct (decide (k = key)) as [->|Hk]; simpl.
    + by destruct (decide (key = key')).
    + destruct (decide (k = key')) as [->|Hk']; [by rewrite decide_False|].
      apply IH.
Qed.

Lemma lane_set_cons n key item ro :
  lane_set n key (item :: ro)
  = (if decide (name item.1 = n /\ item.2 = key) then [item.1] else [])
    ++ lane_set n key ro.
Proof.
  unfold lane_set. rewrite filter_cons. by case_decide.
Qed.

Lemma foldl_lane_step_get n key ro d :
  default [] (dict_get key (foldl (lane_step n) d ro))
  = default [] (dict_get key d) ++ lane_set n key ro.
Proof.
  revert d. induction ro as [|[mref k] ro IH]; intros d; simpl.
  - by rewrite app_nil_r.
  - rewrite IH, lane_set_cons. unfold lane_step. simpl.
    destruct (decide (name mref = n)) as [Hn|Hn].
    + rewrite dict_get_defaultdict_append.
      destruct (decide (k = key)) as [Hk|Hk]; simpl.
      * rewrite decide_True; [|done]. by rewrite <- app_assoc.
      * rewrite decide_False; [done | by intros [_ ?]].
    + rewrite decide_False; [done | by intros [? _]].
Qed.

Lemma defaultdict_append_nonempty {A} key (x : A) d :
  Forall (fun kv => kv.2 <> []) d ->
  Forall (fun kv => kv.2 <> []) (defaultdict_append key x d).
Proof.
  induction 1 as [|[k l] d Hl Hd IH]; simpl.
  - by repeat constructor.
  - case_decide; constructor; auto. simpl. by destruct l.
Qed.

Lemma foldl_lane_step_nonempty n ro d :
  Forall (fun kv => kv.2 <> []) d ->
  Forall (fun kv => kv.2 <> []) (foldl (lane_step n) d ro).
Proof.
  revert d. induction ro as [|item ro IH]; intros d Hd; simpl; [done|].
  apply IH. unfold lane_step. case_decide; [|done].
  by apply defaultdict_append_nonempty.
Qed.

(** Refinement: every entry of the inner dictionary of a region is a lane
    set in the sense of the specification, and is not empty. *)
Lemma lane_sets_of_elem n key mref_list ro :
  dict_get key (lane_sets_of n ro) = Some mref_list ->
  mref_list = lane_set n key ro /\ mref_list <> [].
Proof.
  intros Hget. split.
  - pose proof (foldl_lane_step_get n key ro []) as Hl.
    fold (lane_sets_of n ro) in Hl. by rewrite Hget in Hl.
  - apply dict_get_Some_elem in Hget.
    pose proof (foldl_lane_step_nonempty n ro [] (Forall_nil_2 _)) as Hne.
    rewrite Forall_forall in Hne. apply (Hne _ Hget).
Qed.

Lemma lane_sets_of_complete n key mref ro :
  (mref, key) ∈ ro -> name mref = n ->
  exists mref_list,
    dict_get key (lane_sets_of n ro) = Some mref_list /\ mref ∈ mref_list.
Proof.
  intros Hin Hn.
  assert (mref ∈ lane_set n key ro) as Hm.
  { unfold lane_set. apply list_elem_of_fmap. exists (mref, key).
    split; [done|]. by apply list_elem_of_filter. }
  pose proof (foldl_lane_step_get n key ro []) as Hl.
  fold (lane_sets_of n ro) in Hl. simpl in Hl.
  destruct (dict_get key (lane_sets_of n ro)) as [l|] eqn:E.
  - exists l. split; [done|]. simpl in Hl. by rewrite Hl.
  - simpl in Hl. rewrite <- Hl in Hm. by apply elem_of_nil in Hm.
Qed.

Lemma lane_sets_of_unused n ro :
  Forall (fun item => name item.1 <> n) ro -> lane_sets_of n ro = [].
Proof.
  enough (forall d, Forall (fun item => name item.1 <> n) ro ->
                    foldl (lane_step n) d ro = d) as Hd by apply Hd.
  intros d Hro. revert d.
  induction Hro as [|item ro Hitem Hro IH]; intros d; simpl; [done|].
  rewrite IH. unfold lane_step. by rewrite decide_False.
Qed.

(** ** Allocation and assignment keep the shape of a region *)

Section ShapeFacts.
Context `{FloatModel}.

Lemma same_shape_refl a : same_shape a a.
Proof. by repeat split. Qed.

Lemma same_shape_trans a b c : same_shape a b -> same_shape b c -> same_shape a c.
Proof. unfold same_shape. intros (?&?&?) (?&?&?). repeat split; congruence. Qed.

Lemma alloc_Ok spec num_shots a :
  alloc spec num_shots = Ok a ->
  dict_get (ParameterSpec.type spec) dtype_table = Some (arr_dtype a)
  /\ arr_width a = ParameterSpec.length spec
  /\ arr_rows a = replicate num_shots (replicate (ParameterSpec.length spec) Uninit).
Proof.
  unfold alloc. destruct (dict_get _ dtype_table) as [d|]; [|done].
  intros [= <-]. by repeat split.
Qed.

Lemma alloc_shots spec num_shots a :
  alloc spec num_shots = Ok a -> arr_shots a = num_shots.
Proof.
  intros (_ & _ & Hrows)%alloc_Ok. unfold arr_shots.
  by rewrite Hrows, length_replicate.
Qed.

Lemma alloc_wf spec num_shots a : alloc spec num_shots = Ok a -> ndarray_wf a.
Proof.
  intros (_ & Hw & Hrows)%alloc_Ok. unfold ndarray_wf.
  rewrite Hrows, Hw. apply Forall_replicate. apply length_replicate.
Qed.

Lemma assign_columns_shape a start src a' :
  assign_columns a start src = Ok a' -> same_shape a a'.
Proof.
  unfold assign_columns, same_shape, arr_shots.
  case_decide as Hlen.
  - intros [= <-]. simpl. rewrite length_zip_with. unfold arr_shots in Hlen.
    repeat split. lia.
  - destruct src as [|vals [|]]; try done.
    intros [= <-]. simpl. by rewrite length_fmap.
Qed.

Lemma place_lane_shape mref_name region_width num_lanes width buf a i mref a' :
  place_lane mref_name region_width num_lanes width buf a i mref = Ok a' ->
  same_shape a a'.
Proof.
  unfold place_lane. case_decide; [done|]. apply assign_columns_shape.
Qed.

Lemma place_lanes_shape mref_name region_width num_lanes width buf sorted_mref :
  forall i a a',
    place_lanes mref_name region_width num_lanes width buf i sorted_mref a = Ok a' ->
    same_shape a a'.
Proof.
  induction sorted_mref as [|mref rest IH]; simpl; intros i a a'.
  - intros [= <-]. apply same_shape_refl.
  - intros (a1 & H1 & H2)%bind_Ok_inv.
    eapply same_shape_trans; [by eapply place_lane_shape | by eapply IH].
Qed.

Lemma place_lane_set_shape buffers mref_name region_width a item a' :
  place_lane_set buffers mref_name region_width a item = Ok a' -> same_shape a a'.
Proof.
  destruct item as [key mref_list]. unfold place_lane_set.
  intros (buf & _ & Hplace)%bind_Ok_inv.
  destruct (widen buf) as [width rows]. by eapply place_lanes_shape.
Qed.

Lemma place_lane_sets_shape buffers mref_name region_width mref_dict :
  forall a a',
    place_lane_sets buffers mref_name region_width mref_dict a = Ok a' ->
    same_shape a a'.
Proof.
  induction mref_dict as [|item rest IH]; simpl; intros a a'.
  - intros [= <-]. apply same_shape_refl.
  - intros (a1 & H1 & H2)%bind_Ok_inv.
    eapply same_shape_trans; [by eapply place_lane_set_shape | by eapply IH].
Qed.

(** Every assembled region has [num_shots] rows, the declared length as
    its width and the element type of its declared type. *)
Lemma assemble_region_shape memory_descriptors buffers num_shots mref_name mref_dict a :
  assemble_region memory_descriptors buffers num_shots mref_name mref_dict = Ok a ->
  exists spec,
    dict_get mref_name memory_descriptors = Some spec
    /\ arr_shots a = num_shots
    /\ arr_width a = ParameterSpec.length spec
    /\ dict_get (ParameterSpec.type spec) dtype_table = Some (arr_dtype a).
Proof.
  unfold assemble_region.
  destruct (dict_get mref_name memory_descriptors) as [spec|]; [|done].
  intros (a0 & Halloc & Hplace)%bind_Ok_inv. exists spec.
  apply place_lane_sets_shape in Hplace as (Hs & Hw & Hd).
  pose proof (alloc_shots _ _ _ Halloc).
  apply alloc_Ok in Halloc as (Hty & Hw0 & _).
  repeat split; congruence.
Qed.

(** The loop over [sources.items()] ran every iteration to its end. *)
Lemma assemble_regions_each memory_descriptors buffers num_shots sources :
  forall regions regions',
    assemble_regions memory_descriptors buffers num_shots sources regions = Ok regions' ->
    Forall (fun item => is_ok (assemble_region memory_descriptors buffers num_shots
                                 item.1 item.2) = true) sources.
Proof.
  induction sources as [|[mref_name mref_dict] rest IH]; simpl; intros regions regions'.
  - constructor.
  - intros (a & Ha & Hrest)%bind_Ok_inv. constructor; [simpl; by rewrite Ha | by eapply IH].
Qed.

Lemma assemble_regions_Forall (P : string * ndarray -> Prop)
    memory_descriptors buffers num_shots sources :
  (forall mref_name mref_dict a,
      (mref_name, mref_dict) ∈ sources ->
      assemble_region memory_descriptors buffers num_shots mref_name mref_dict = Ok a ->
      P (mref_name, a)) ->
  forall regions regions',
    Forall P regions ->
    assemble_regions memory_descriptors buffers num_shots sources regions = Ok regions' ->
    Forall P regions'.
Proof.
  induction sources as [|[mref_name mref_dict] rest IH]; simpl;
    intros HP regions regions' Hregions.
  - by intros [= <-].
  - intros (a & Ha & Hrest)%bind_Ok_inv.
    eapply IH; [| |exact Hrest].
    + intros n d a' Hin. apply HP. by right.
    + apply dict_set_Forall; [|done]. apply (HP _ mref_dict); [by left | done].
Qed.

(** Every name of [sources] is a key of the result. *)
Lemma assemble_regions_keys memory_descriptors buffers num_shots sources :
  forall regions regions' k,
    assemble_regions memory_descriptors buffers num_shots sources regions = Ok regions' ->
    k ∈ regions.*1 \/ k ∈ sources.*1 -> k ∈ regions'.*1.
Proof.
  induction sources as [|[mref_name mref_dict] rest IH]; simpl;
    intros regions regions' k.
  - intros [= <-] [Hk|Hk]; [done | by apply elem_of_nil in Hk].
  - intros (a & Ha & Hrest)%bind_Ok_inv Hk.
    apply (IH _ _ _ Hrest). rewrite dict_set_keys_elem.
    rewrite elem_of_cons in Hk. tauto.
Qed.

(** With distinct region names the result lists the regions in the order
    of [sources], each as [assemble_region] made it. *)
Lemma assemble_regions_NoDup memory_descriptors buffers num_shots sources :
  forall regions regions',
    NoDup (regions.*1 ++ sources.*1) ->
    assemble_regions memory_descriptors buffers num_shots sources regions = Ok regions' ->
    exists new,
      regions' = regions ++ new
      /\ Forall2 (fun src item =>
                    item.1 = src.1
                    /\ assemble_region memory_descriptors buffers num_shots
                         src.1 src.2 = Ok item.2) sources new.
Proof.
  induction sources as [|[mref_name mref_dict] rest IH]; simpl;
    intros regions regions' Hnd.
  - intros [= <-]. exists []. by rewrite app_nil_r.
  - intros (a & Ha & Hrest)%bind_Ok_inv.
    assert (mref_name ∉ regions.*1) as Hfresh.
    { apply NoDup_app in Hnd as (_ & Hdisj & _). intros Hin.
      apply (Hdisj _ Hin). by left. }
    rewrite dict_set_fresh in Hrest by done.
    apply IH in Hrest as (new & -> & Hnew).
    + exists ((mref_name, a) :: new). rewrite <- app_assoc. split; [done|].
      by constructor.
    + rewrite fmap_app. simpl. rewrite <- app_assoc. simpl.
      by rewrite <- Permutation_middle in Hnd |- *.
Qed.
End ShapeFacts.

(** ** Shot-count inference (lines 89-91) *)

Section ShotCount.
Context `{FloatModel}.

Lemma infer_num_shots_empty ro buffers :
  infer_num_shots (group_sources [] ro) buffers = Raise StopIteration.
Proof.
  pose proof (group_sources_keys [] ro) as Hkeys.
  by destruct (group_sources [] ro).
Qed.

Lemma infer_num_shots_head n spec rest ro buffers :
  infer_num_shots (group_sources ((n, spec) :: rest) ro) buffers
  = match lane_sets_of n ro with
    | [] => Raise StopIteration
    | (buf_key, mref_list) :: _ =>
        buf ← lookup_buffer buf_key buffers;
        Ok (buffer_shape0 buf / length mref_list)
    end.
Proof. by destruct (group_sources_head n spec rest ro) as [sources' ->]. Qed.

(** C1. [_extract_memory_regions] derives the shot count from one lane
    set fixed by the inputs, that of the first buffer key of the first
    declared region: the number of rows of its buffer divided by the
    number of references of the lane set. The count is applied to every
    region: each declared region is in the returned map with that many
    shot rows, and the map holds no region with another number of rows.
    A buffer of 12 rows shared by a lane set of 3 references gives 4
    shots. *)
Theorem shot_count_derivation :
  (forall memory_descriptors ro_sources buffers regions,
      _extract_memory_regions memory_descriptors ro_sources buffers = Ok regions ->
      exists mref_name spec rest buf_key mref_list lane_sets sources' buf,
        memory_descriptors = (mref_name, spec) :: rest
        /\ group_sources memory_descriptors ro_sources
           = (mref_name, (buf_key, mref_list) :: lane_sets) :: sources'
        /\ mref_list = lane_set mref_name buf_key ro_sources
        /\ buffers !! buf_key = Some buf
        /\ infer_num_shots (group_sources memory_descriptors ro_sources) buffers
           = Ok (buffer_shape0 buf / length mref_list)
        /\ Forall (fun item =>
                     arr_shots item.2 = buffer_shape0 buf / length mref_list)
                  regions
        /\ (forall rname rspec,
              dict_get rname memory_descriptors = Some rspec ->
              exists a,
                dict_get rname regions = Some a
                /\ arr_shots a = buffer_shape0 buf / length mref_list
                /\ arr_width a = ParameterSpec.length rspec))
  /\ (forall mref_name buf_key m1 m2 m3 lane_sets sources buffers buf,
        buffers !! buf_key = Some buf ->
        buffer_shape0 buf = 12 ->
        infer_num_shots
          ((mref_name, (buf_key, [m1; m2; m3]) :: lane_sets) :: sources) buffers
        = Ok 4).
Proof.
  split.
  - intros memory_descriptors ro_sources buffers regions.
    unfold _extract_memory_regions.
    intros (num_shots & Hinfer & Hloop)%bind_Ok_inv.
    pose proof Hinfer as Hinfer0.
    destruct memory_descriptors as [|[mref_name spec] rest].
    { by rewrite infer_num_shots_empty in Hinfer. }
    rewrite infer_num_shots_head in Hinfer.
    destruct (group_sources_head mref_name spec rest ro_sources) as [sources' Hsrc].
    destruct (lane_sets_of mref_name ro_sources)
      as [|[buf_key mref_list] lane_sets] eqn:Hlanes; [done|].
    apply bind_Ok_inv in Hinfer as (buf & Hbuf & [= <-]).
    unfold lookup_buffer in Hbuf.
    destruct (buffers !! buf_key) as [buf'|] eqn:Hlookup; [|done].
    injection Hbuf as ->.
    set (descs := (mref_name, spec) :: rest) in *.
    assert (Forall (fun item =>
                      arr_shots item.2 = buffer_shape0 buf / length mref_list
                      /\ forall rspec, dict_get item.1 descs = Some rspec ->
                                       arr_width item.2 = ParameterSpec.length rspec)
                   regions) as Hall.
    { eapply assemble_regions_Forall; [|apply Forall_nil_2|exact Hloop].
      intros n d a _ Ha. cbn [fst snd].
      apply assemble_region_shape in Ha as (spec' & Hspec' & -> & Hw & _).
      split; [done|]. intros rspec Hrspec. rewrite Hrspec in Hspec'.
      by injection Hspec' as <-. }
    exists mref_name, spec, rest, buf_key, mref_list, lane_sets, sources', buf.
    split; [done|]. split; [done|]. split; [|split; [done|split; [done|split]]].
    + apply (lane_sets_of_elem mref_name buf_key mref_list ro_sources).
      rewrite Hlanes. simpl. by rewrite decide_True.
    + eapply Forall_impl; [exact Hall|]. by intros item [? _].
    + intros rname rspec Hrname.
      assert (rname ∈ regions.*1) as Hkey.
      { apply (assemble_regions_keys _ _ _ _ _ _ _ Hloop). right.
        rewrite group_sources_keys. apply dict_mem_true. unfold dict_mem.
        by rewrite Hrname. }
      destruct (dict_get rname regions) as [a|] eqn:Hget.
      2:{ by apply dict_get_None in Hget. }
      exists a. split; [done|].
      apply dict_get_Some_elem in Hget. rewrite Forall_forall in Hall.
      destruct (Hall _ Hget) as [Hs Hw]. split; [done|]. by apply Hw.
  - intros mref_name buf_key m1 m2 m3 lane_sets sources buffers buf Hbuf Hrows.
    simpl. unfold lookup_buffer. rewrite Hbuf. simpl. by rewrite Hrows.
Qed.

(** C10. Shot-count inference is partial: with no declared region, or
    when no readout source names the first declared region, the call ends
    with the [StopIteration] of [next(iter(...))], whatever the other
    regions, readout sources and buffers are. *)
Theorem shot_inference_partial :
  (forall ro_sources buffers,
      _extract_memory_regions [] ro_sources buffers = Raise StopIteration)
  /\ (forall mref_name spec rest ro_sources buffers,
        Forall (fun item => name item.1 <> mref_name) ro_sources ->
        _extract_memory_regions ((mref_name, spec) :: rest) ro_sources buffers
        = Raise StopIteration).
Proof.
  split.
  - intros ro_sources buffers. unfold _extract_memory_regions.
    by rewrite infer_num_shots_empty.
  - intros mref_name spec rest ro_sources buffers Hunused.
    unfold _extract_memory_regions.
    by rewrite infer_num_shots_head, lane_sets_of_unused.
Qed.

(** C8. A readout source whose region is not declared is discarded:
    with it or without it, wherever it stands in [ro_sources], the call
    returns the same region map or raises the same exception. *)
Theorem stale_reference_ignored memory_descriptors ro1 ro2 mref key buffers :
  dict_get (name mref) memory_descriptors = None ->
  _extract_memory_regions memory_descriptors (ro1 ++ (mref, key) :: ro2) buffers
  = _extract_memory_regions memory_descriptors (ro1 ++ ro2) buffers.
Proof.
  intros Hstale.
  assert (group_sources memory_descriptors (ro1 ++ (mref, key) :: ro2)
          = group_sources memory_descriptors (ro1 ++ ro2)) as Hsame.
  { unfold group_sources. rewrite !foldl_app. simpl. f_equal.
    apply add_source_stale.
    rewrite foldl_add_source_keys, init_sources_keys.
    by apply dict_get_None. }
  unfold _extract_memory_regions. by rewrite Hsame.
Qed.
End ShotCount.

(** ** Sorting the lanes by offset (line 99) *)

Lemma insert_by_offset_perm m l : insert_by_offset m l ≡ₚ m :: l.
Proof.
  induction l as [|x l IH]; simpl; [done|].
  case_decide; [done|]. by rewrite IH, Permutation_swap.
Qed.

Lemma sort_by_offset_perm l : sort_by_offset l ≡ₚ l.
Proof.
  induction l as [|m l IH]; simpl; [done|].
  by rewrite insert_by_offset_perm, IH.
Qed.

Lemma sort_by_offset_length l : length (sort_by_offset l) = length l.
Proof. by rewrite sort_by_offset_perm. Qed.

(** ** The two errors the code raises itself *)

Section Errors.
Context `{FloatModel}.

Lemma dtype_table_None ty :
  dict_get ty dtype_table = None <-> ty ∉ ["BIT"; "INTEGER"; "REAL"; "FLOAT"].
Proof.
  unfold dtype_table. simpl. rewrite !not_elem_of_cons.
  repeat case_decide; subst; split; try done; try tauto.
  intros _. repeat split; try done. apply not_elem_of_nil.
Qed.

Lemma place_lane_overflow mref_name region_width num_lanes width buf region i mref :
  region_width < offset mref + width ->
  place_lane mref_name region_width num_lanes width buf region i mref
  = Raise (ValueError (AttemptedToFill mref_name (offset mref)
                         (offset mref + width) region_width)).
Proof. intros Hover. unfold place_lane. by rewrite decide_True. Qed.

Lemma place_lanes_fit mref_name region_width num_lanes width buf sorted_mref :
  forall i a a',
    place_lanes mref_name region_width num_lanes width buf i sorted_mref a = Ok a' ->
    Forall (fun mref => offset mref + width <= region_width) sorted_mref.
Proof.
  induction sorted_mref as [|mref rest IH]; simpl; intros i a a'.
  - constructor.
  - intros (a1 & H1 & H2)%bind_Ok_inv. constructor; [|by eapply IH].
    unfold place_lane in H1. case_decide; [done | lia].
Qed.

Lemma place_lane_sets_fit buffers mref_name region_width mref_dict :
  forall a a',
    place_lane_sets buffers mref_name region_width mref_dict a = Ok a' ->
    Forall (fun item =>
              exists buf, buffers !! item.1 = Some buf
                /\ Forall (fun mref => offset mref + (widen buf).1 <= region_width)
                          item.2) mref_dict.
Proof.
  induction mref_dict as [|[key mref_list] rest IH]; simpl; intros a a'.
  - constructor.
  - intros (a1 & H1 & H2)%bind_Ok_inv. constructor; [|by eapply IH].
    apply bind_Ok_inv in H1 as (buf & Hbuf & Hplace).
    unfold lookup_buffer in Hbuf.
    destruct (buffers !! key) as [buf'|] eqn:Hlookup; [|done].
    injection Hbuf as ->. exists buf. split; [done|]. simpl.
    destruct (widen buf) as [width rows]. simpl.
    apply place_lanes_fit in Hplace.
    by rewrite sort_by_offset_perm in Hplace.
Qed.

(** A declared region is assembled by every call that returns. *)
Lemma extract_assembles_declared memory_descriptors ro_sources buffers regions
    rname spec :
  _extract_memory_regions memory_descriptors ro_sources buffers = Ok regions ->
  dict_get rname memory_descriptors = Some spec ->
  exists num_shots a,
    assemble_region memory_descriptors buffers num_shots rname
      (lane_sets_of rname ro_sources) = Ok a.
Proof.
  unfold _extract_memory_regions.
  intros (num_shots & _ & Hloop)%bind_Ok_inv Hspec.
  apply assemble_regions_each in Hloop. rewrite Forall_forall in Hloop.
  pose proof (group_sources_lookup rname _ ro_sources _ Hspec) as Hget.
  apply dict_get_Some_elem, Hloop in Hget. simpl in Hget.
  exists num_shots.
  destruct (assemble_region memory_descriptors buffers num_shots rname
              (lane_sets_of rname ro_sources)) as [a|]; [by exists a | done].
Qed.

End Errors.

(** ** Regions of the result map *)

Section ResultMap.
Context `{FloatModel}.

(** With distinct declared names, the result has one region per declared
    name, in the declared order, each as [assemble_region] made it from
    the lane sets of that name. *)
Lemma extract_regions memory_descriptors ro_sources buffers regions :
  NoDup memory_descriptors.*1 ->
  _extract_memory_regions memory_descriptors ro_sources buffers = Ok regions ->
  regions.*1 = memory_descriptors.*1
  /\ exists num_shots,
      infer_num_shots (group_sources memory_descriptors ro_sources) buffers
      = Ok num_shots
      /\ forall rname spec,
          dict_get rname memory_descriptors = Some spec ->
          exists a,
            dict_get rname regions = Some a
            /\ assemble_region memory_descriptors buffers num_shots rname
                 (lane_sets_of rname ro_sources) = Ok a.
Proof.
  intros Hnd. unfold _extract_memory_regions.
  intros (num_shots & Hinfer & Hloop)%bind_Ok_inv.
  pose proof (group_sources_keys memory_descriptors ro_sources) as Hkeys.
  apply assemble_regions_NoDup in Hloop as (new & -> & Hnew);
    [|simpl; by rewrite Hkeys].
  simpl in *.
  assert (new.*1 = (group_sources memory_descriptors ro_sources).*1) as Hnewkeys.
  { clear -Hnew. induction Hnew as [|src item srcs items [Hk _] _ IH];
      [done | rewrite !fmap_cons; by f_equal]. }
  split; [congruence|]. exists num_shots. split; [done|].
  intros rname spec Hspec.
  pose proof (group_sources_lookup rname _ ro_sources _ Hspec) as Hget.
  apply dict_get_Some_elem, list_elem_of_lookup in Hget as [i Hi].
  destruct (Forall2_lookup_l _ _ _ _ _ Hnew Hi) as ([rname' a] & Hi' & Hk & Ha).
  simpl in Hk, Ha. subst rname'. exists a. split; [|done].
  apply dict_get_NoDup; [congruence|]. apply list_elem_of_lookup. by exists i.
Qed.

(** C5, as the code has it. A declared region that no readout source
    names is not left out of the result: whenever the call returns, the
    map has exactly the declared names, every region of it has the
    inferred number of shot rows, and such a region is in it as [alloc]
    made it for that shot count: of the element type of its declared
    type, with the inferred number of rows, its declared length as width
    and every cell as [np.ndarray] allocated it, never assigned. *)
Theorem unused_region_allocated memory_descriptors ro_sources buffers regions :
  NoDup memory_descriptors.*1 ->
  _extract_memory_regions memory_descriptors ro_sources buffers = Ok regions ->
  exists num_shots,
    infer_num_shots (group_sources memory_descriptors ro_sources) buffers
    = Ok num_shots
    /\ regions.*1 = memory_descriptors.*1
    /\ Forall (fun item => arr_shots item.2 = num_shots) regions
    /\ forall rname spec,
        dict_get rname memory_descriptors = Some spec ->
        Forall (fun item => name item.1 <> rname) ro_sources ->
        exists a,
          dict_get rname regions = Some a
          /\ alloc spec num_shots = Ok a
          /\ arr_shots a = num_shots
          /\ arr_width a = ParameterSpec.length spec
          /\ dict_get (ParameterSpec.type spec) dtype_table = Some (arr_dtype a)
          /\ arr_rows a
             = replicate num_shots (replicate (ParameterSpec.length spec) Uninit).
Proof.
  intros Hnd Hok.
  destruct (extract_regions _ _ _ _ Hnd Hok)
    as (Hkeys & num_shots & Hinfer & Hregions).
  exists num_shots. split; [done|]. split; [done|]. split.
  - unfold _extract_memory_regions in Hok. rewrite Hinfer in Hok. simpl in Hok.
    eapply assemble_regions_Forall; [|apply Forall_nil_2|exact Hok].
    intros n d a _ Ha. cbn [fst snd].
    by apply assemble_region_shape in Ha as (_ & _ & -> & _).
  - intros rname spec Hspec Hunused.
    destruct (Hregions rname spec Hspec) as (a & Hget & Ha).
    exists a. split; [done|].
    rewrite lane_sets_of_unused in Ha by done.
    unfold assemble_region in Ha. rewrite Hspec in Ha. simpl in Ha.
    apply bind_Ok_inv in Ha as (a0 & Halloc & [= <-]).
    pose proof (alloc_shots _ _ _ Halloc) as Hshots.
    split; [done|]. split; [done|].
    by apply alloc_Ok in Halloc as (Hty & Hw & Hrows).
Qed.
End ResultMap.

(** ** Decoding and the caller's fallback *)

Section Decoding.
Context `{FloatModel} {payload : Type}.
Variable to_complex32 : payload -> list complex.
Variable to_i32 : payload -> list Z.

(** C7. [decode_buffer] returns the complex array of the payload for the
    tag "complex", the array of its 32-bit signed integers for the tag
    "integer" ([to_i32] is the conversion of the SDK, which yields such
    integers), and for every other tag an integer array of length 0; it
    never raises, and its result depends on the tag and the payload
    only. *)
Theorem decode_buffer_cases (raw : ExecutionResult payload) :
  (forall p, Forall is_int32 (to_i32 p)) ->
  (dtype raw = "complex" ->
     decode_buffer to_complex32 to_i32 raw
     = ComplexBuffer (Dim1 (to_complex32 (data raw))))
  /\ (dtype raw = "integer" ->
       exists samples,
         decode_buffer to_complex32 to_i32 raw = IntBuffer (Dim1 samples)
         /\ samples = to_i32 (data raw) /\ Forall is_int32 samples)
  /\ (dtype raw <> "complex" -> dtype raw <> "integer" ->
       decode_buffer to_complex32 to_i32 raw = IntBuffer (Dim1 [])
       /\ buffer_shape0 (decode_buffer to_complex32 to_i32 raw) = 0)
  /\ (forall raw' : ExecutionResult payload,
        dtype raw' = dtype raw -> data raw' = data raw ->
        decode_buffer to_complex32 to_i32 raw'
        = decode_buffer to_complex32 to_i32 raw).
Proof.
  intros Hi32. unfold decode_buffer. repeat split.
  - intros Htag. by rewrite decide_True.
  - intros Htag. exists (to_i32 (data raw)).
    rewrite Htag. by rewrite decide_False, decide_True.
  - by rewrite !decide_False.
  - by rewrite !decide_False.
  - intros raw' Htag Hdata. by rewrite Htag, Hdata.
Qed.

(** C9. When no buffer came back, [get_result] returns the single region
    "ro" of shape (0, 0) and element type int64 if the program has no
    readout source, and the empty region map, without raising, if it has
    some. *)
Theorem empty_result_fallback memory_descriptors
    (results_buffers : gmap string (ExecutionResult payload)) :
  decode_buffer to_complex32 to_i32 <$> results_buffers = ∅ ->
  get_result_memory to_complex32 to_i32 memory_descriptors [] results_buffers
  = Ok [("ro", NDArray int64 0 [])]
  /\ forall ro_sources,
      ro_sources <> [] ->
      get_result_memory to_complex32 to_i32 memory_descriptors ro_sources
        results_buffers
      = Ok [].
Proof.
  intros Hempty. unfold get_result_memory. rewrite Hempty, map_size_empty.
  split; [done|]. intros ro_sources Hro.
  rewrite decide_False by (intros Hne; by apply Hne).
  by rewrite decide_False.
Qed.
End Decoding.

(** ** Widening of complex buffers (lines 101-105) *)

Section Widening.
Context `{FloatModel}.

Lemma column_stack_real_imag_lookup (row : list complex) j c :
  row !! j = Some c ->
  column_stack_real_imag row !! j = Some (SReal c.1)
  /\ column_stack_real_imag row !! (length row + j) = Some (SReal c.2).
Proof.
  intros Hj. pose proof (lookup_lt_Some _ _ _ Hj) as Hlt.
  unfold column_stack_real_imag, complex in *. split.
  - rewrite lookup_app_l by (by rewrite length_fmap).
    rewrite list_lookup_fmap. by rewrite Hj.
  - rewrite lookup_app_r by (rewrite length_fmap; lia).
    rewrite length_fmap. replace (length row + j - length row) with j by lia.
    rewrite list_lookup_fmap. by rewrite Hj.
Qed.

(** C4, as the code has it. A complex buffer is widened to twice its
    width. A one-dimensional buffer, and a two-dimensional one of width
    1, become the rows (real part, imaginary part) of their samples, so
    [(1+2j), (3+4j)] becomes [[1, 2], [3, 4]]. For a wider buffer the
    real parts of a row come first and its imaginary parts after them:
    sample [j] of a row of width [w] has its real part in column [j] and
    its imaginary part in column [w + j]. *)
Theorem complex_widening :
  (forall samples : list complex,
      widen (ComplexBuffer (Dim1 samples))
      = (2, (fun c => [SReal c.1; SReal c.2]) <$> samples))
  /\ (forall rows : list (list complex),
        Forall (fun row => length row = 1) rows ->
        widen (ComplexBuffer (Dim2 1 rows)) = (2, interleave_real_imag <$> rows))
  /\ (forall w (rows : list (list complex)),
        exists wide,
          widen (ComplexBuffer (Dim2 w rows)) = (w + w, wide)
          /\ length wide = length rows
          /\ forall i row j c,
              rows !! i = Some row -> row !! j = Some c ->
              exists wrow,
                wide !! i = Some wrow
                /\ wrow !! j = Some (SReal c.1)
                /\ wrow !! (length row + j) = Some (SReal c.2))
  /\ widen (ComplexBuffer (Dim1 [(real_of_int 1, real_of_int 2);
                                 (real_of_int 3, real_of_int 4)]))
     = (2, [[SReal (real_of_int 1); SReal (real_of_int 2)];
            [SReal (real_of_int 3); SReal (real_of_int 4)]]).
Proof.
  split; [|split; [|split]].
  - intros samples. unfold widen. simpl. f_equal.
    rewrite <- list_fmap_compose. by apply list_fmap_ext.
  - intros rows Hrows. unfold widen. simpl. f_equal.
    apply list_fmap_ext. intros i row Hi.
    rewrite Forall_forall in Hrows.
    assert (length row = 1) as Hlen.
    { apply Hrows. apply list_elem_of_lookup. by exists i. }
    by destruct row as [|c [|]].
  - intros w rows. exists (column_stack_real_imag <$> rows).
    split; [done|]. split; [apply length_fmap|].
    intros i row j c Hi Hj. exists (column_stack_real_imag row).
    split; [by rewrite list_lookup_fmap, Hi|].
    by apply column_stack_real_imag_lookup.
  - done.
Qed.
End Widening.

(** ** Strided rows and column assignment (line 113) *)

(** [l[i::step][s]] is [l[i + s * step]]. *)
Lemma every_nth_lookup {A} (l : list A) step :
  0 < step -> forall i s, every_nth i step l !! s = l !! (i + s * step).
Proof.
  intros Hstep. induction l as [|x l IH]; intros i s; simpl; [done|].
  destruct i as [|i]; simpl.
  - destruct s as [|s]; simpl; [done|]. rewrite IH.
    destruct step as [|step]; [lia|]. simpl. f_equal. lia.
  - apply IH.
Qed.

Lemma every_nth_length {A} (l : list A) step i n :
  i < step -> length l = n * step -> length (every_nth i step l) = n.
Proof.
  intros Hi Hlen. assert (0 < step) as Hstep by lia.
  destruct (Nat.lt_trichotomy (length (every_nth i step l)) n) as [Hlt|[Heq|Hgt]];
    [exfalso | done | exfalso].
  - pose proof (lookup_ge_None_2 (every_nth i step l) _ (Nat.le_refl _)) as Hnone.
    rewrite every_nth_lookup in Hnone by done.
    apply lookup_ge_None_1 in Hnone. nia.
  - apply lookup_lt_is_Some_2 in Hgt as [x Hx].
    rewrite every_nth_lookup in Hx by done.
    apply lookup_lt_Some in Hx. nia.
Qed.

Lemma every_nth_elem_of {A} (l : list A) step i x :
  x ∈ every_nth i step l -> x ∈ l.
Proof.
  revert i. induction l as [|y l IH]; intros i; simpl; [done|].
  destruct i as [|i].
  - intros [->|Hin]%elem_of_cons; [left | right; by eapply IH].
  - intros Hin. right. by eapply IH.
Qed.

Section Columns.
Context `{FloatModel}.
Implicit Types (row vals : list cell).

Lemma set_columns_length start vals row :
  start + length vals <= length row ->
  length (set_columns start vals row) = length row.
Proof.
  intros Hfit. unfold set_columns.
  rewrite !length_app, length_take, length_drop. lia.
Qed.

Lemma set_columns_prefix p start vals row :
  p <= start -> start <= length row ->
  take p (set_columns start vals row) = take p row.
Proof.
  intros Hp Hstart. unfold set_columns.
  rewrite take_app_le by (rewrite length_take; lia).
  rewrite take_take. f_equal. lia.
Qed.

Lemma set_columns_read start vals row :
  start <= length row ->
  take (length vals) (drop start (set_columns start vals row)) = vals.
Proof.
  intros Hstart. unfold set_columns.
  rewrite drop_app_length' by (rewrite length_take; lia).
  by rewrite take_app_length.
Qed.

(** The columns below [stop] are those of the prefix of length [stop]. *)
Lemma columns_of_prefix p start width row row' :
  start + width <= p -> take p row' = take p row ->
  take width (drop start row') = take width (drop start row).
Proof.
  intros Hp Hpre. rewrite !take_drop_commute.
  replace (take (start + width) row') with (take (start + width) (take p row'))
    by (rewrite take_take; f_equal; lia).
  rewrite Hpre, take_take. do 2 f_equal. lia.
Qed.
End Columns.

(** ** Placement of the lanes of one lane set (lines 106-113) *)

Section Placement.
Context `{FloatModel}.

Lemma rows_agree_weaken p q a b : q <= p -> rows_agree p a b -> rows_agree q a b.
Proof.
  intros Hq Hab s. specialize (Hab s).
  destruct (arr_rows b !! s) as [rb|], (arr_rows a !! s) as [ra|];
    simpl in *; try done.
  injection Hab as Hab. f_equal.
  replace (take q rb) with (take q (take p rb)) by (rewrite take_take; f_equal; lia).
  rewrite Hab, take_take. f_equal. lia.
Qed.

Lemma rows_agree_trans p a b c :
  rows_agree p a b -> rows_agree p b c -> rows_agree p a c.
Proof. intros Hab Hbc s. by rewrite Hbc. Qed.

Lemma rows_agree_columns p start width a a' :
  start + width <= p -> rows_agree p a a' ->
  arr_columns a' start (start + width) = arr_columns a start (start + width).
Proof.
  intros Hp Hagree. unfold arr_columns. apply list_eq. intros s.
  rewrite !list_lookup_fmap. specialize (Hagree s).
  destruct (arr_rows a' !! s) as [r'|], (arr_rows a !! s) as [r|];
    simpl in *; try done.
  injection Hagree as Hagree. f_equal.
  replace (start + width - start) with width by lia.
  by eapply columns_of_prefix.
Qed.

(** An assignment of as many rows as the region has: it succeeds, writes
    the converted rows into the columns from [start] and leaves the
    columns before [start] as they were. *)
Lemma assign_columns_rows a start src width :
  length src = arr_shots a ->
  Forall (fun vals => length vals = width) src ->
  ndarray_wf a ->
  start + width <= arr_width a ->
  exists a',
    assign_columns a start src = Ok a'
    /\ ndarray_wf a'
    /\ rows_agree start a a'
    /\ arr_columns a' start (start + width) = fmap (M:=list) (store (arr_dtype a)) <$> src.
Proof.
  intros Hlen Hsrc Hwf Hfit. unfold assign_columns.
  rewrite decide_True by done. eexists. split; [done|].
  unfold ndarray_wf, rows_agree, arr_columns, arr_shots in *. simpl.
  rewrite Forall_forall in Hsrc. rewrite Forall_forall in Hwf.
  assert (forall s row vals,
             arr_rows a !! s = Some row -> src !! s = Some vals ->
             length row = arr_width a /\ length (store (arr_dtype a) <$> vals) = width)
    as Hrow.
  { intros s row vals Hr Hv. rewrite length_fmap. split.
    - apply Hwf, list_elem_of_lookup. by exists s.
    - apply Hsrc, list_elem_of_lookup. by exists s. }
  split; [|split].
  - apply Forall_forall. intros row' [s Hs]%list_elem_of_lookup.
    apply lookup_zip_with_Some in Hs as (row & vals & -> & Hr & Hv).
    destruct (Hrow s row vals Hr Hv) as [Hlr Hlv].
    rewrite set_columns_length; lia.
  - intros s. rewrite lookup_zip_with.
    destruct (arr_rows a !! s) as [row|] eqn:Hr; simpl; [|done].
    destruct (src !! s) as [vals|] eqn:Hv; simpl.
    + destruct (Hrow s row vals Hr Hv) as [Hlr Hlv].
      f_equal. apply set_columns_prefix; lia.
    + apply lookup_lt_Some in Hr. apply lookup_ge_None_1 in Hv. lia.
  - apply list_eq. intros s. rewrite !list_lookup_fmap, lookup_zip_with.
    destruct (src !! s) as [vals|] eqn:Hv; simpl.
    + destruct (arr_rows a !! s) as [row|] eqn:Hr; simpl.
      * destruct (Hrow s row vals Hr Hv) as [Hlr Hlv]. f_equal.
        replace (start + width - start) with width by lia.
        rewrite <- Hlv at 1. apply set_columns_read. lia.
      * apply lookup_lt_Some in Hv. apply lookup_ge_None_1 in Hr. lia.
    + by destruct (arr_rows a !! s).
Qed.

(** The lanes from index [i0] on, at the offsets [i0 * width],
    [(i0 + 1) * width], ..., each with as many rows as the region. *)
Lemma place_lanes_tiled rname region_width num_lanes width
    (rows : list (list sample)) num_shots :
  Forall (fun vals => length vals = width) rows ->
  length rows = num_shots * num_lanes ->
  num_lanes * width <= region_width ->
  forall lanes i0 a,
    arr_shots a = num_shots -> arr_width a = region_width -> ndarray_wf a ->
    i0 + length lanes <= num_lanes ->
    (forall j mref, lanes !! j = Some mref -> offset mref = (i0 + j) * width) ->
    exists a',
      place_lanes rname region_width num_lanes width rows i0 lanes a = Ok a'
      /\ ndarray_wf a'
      /\ rows_agree (i0 * width) a a'
      /\ forall j mref,
          lanes !! j = Some mref ->
          arr_columns a' (offset mref) (offset mref + width)
          = fmap (M:=list) (store (arr_dtype a)) <$> every_nth (i0 + j) num_lanes rows.
Proof.
  intros Hrows Hlen Htile.
  induction lanes as [|mref rest IH]; intros i0 a Hshots Hwidth Hwf Hi0 Hoff.
  { exists a. simpl. by repeat split. }
  simpl in Hi0. pose proof (Hoff 0 mref eq_refl) as Hmref.
  rewrite Nat.add_0_r in Hmref.
  assert ((i0 + 1) * width <= num_lanes * width) as Hle
    by (apply Nat.mul_le_mono_r; lia).
  destruct (assign_columns_rows a (offset mref) (every_nth i0 num_lanes rows) width)
    as (a1 & Ha1 & Hwf1 & Hagree1 & Hcols1).
  { rewrite Hshots. apply every_nth_length; [lia | done]. }
  { rewrite Forall_forall in Hrows. apply Forall_forall.
    intros vals Hin%every_nth_elem_of. by apply Hrows. }
  { done. }
  { rewrite Hmref, Hwidth. lia. }
  pose proof (assign_columns_shape _ _ _ _ Ha1) as (Hs1 & Hw1 & Hd1).
  destruct (IH (S i0) a1) as (a' & Ha' & Hwf' & Hagree' & Hcols');
    [congruence | congruence | done | lia | |].
  { intros j m Hj. rewrite (Hoff (S j) m Hj). f_equal. lia. }
  exists a'. simpl. unfold place_lane.
  rewrite decide_False by (rewrite Hmref; lia).
  rewrite Ha1. simpl. split; [done|]. split; [done|]. split.
  - rewrite Hmref in Hagree1.
    apply (rows_agree_trans _ a a1 a'); [done|].
    apply (rows_agree_weaken (S i0 * width)); [lia | done].
  - intros [|j] m Hj; simpl in Hj.
    + injection Hj as <-. rewrite Nat.add_0_r.
      rewrite (rows_agree_columns (S i0 * width) _ _ a1 a'); [done | | done].
      rewrite Hmref. lia.
    + rewrite (Hcols' j m Hj), Hd1. do 2 f_equal. lia.
Qed.
End Placement.

(** ** Round trip of one region fed by one buffer *)

Section RoundTrip.
Context `{FloatModel}.

Lemma widen_rows buf : length (widen buf).2 = buffer_shape0 buf.
Proof.
  destruct buf as [[xs|w rows]|[xs|w rows]]; simpl; by rewrite !length_fmap.
Qed.

Lemma widen_wf buf :
  buffer_wf buf -> Forall (fun vals => length vals = (widen buf).1) (widen buf).2.
Proof.
  destruct buf as [[xs|w rows]|[xs|w rows]]; simpl; intros Hwf;
    rewrite !Forall_fmap.
  - by apply Forall_true.
  - eapply Forall_impl; [exact Hwf|]. intros row Hrow. simpl.
    by rewrite length_fmap.
  - by apply Forall_true.
  - eapply Forall_impl; [exact Hwf|]. intros row Hrow. simpl.
    unfold column_stack_real_imag, complex in *. simpl in Hrow.
    rewrite length_app, !length_fmap. by rewrite Hrow.
Qed.

Lemma foldl_lane_step_single n key ro l0 :
  Forall (fun item => name item.1 = n -> item.2 = key) ro ->
  foldl (lane_step n) [(key, l0)] ro = [(key, l0 ++ lane_set n key ro)].
Proof.
  intros Hro. revert l0.
  induction Hro as [|[mref k] ro Hk Hro IH]; intros l0; simpl.
  - by rewrite app_nil_r.
  - rewrite lane_set_cons. unfold lane_step at 2. simpl in *.
    destruct (decide (name mref = n)) as [Hn|Hn].
    + rewrite (Hk Hn). simpl. rewrite !decide_True by done.
      rewrite IH. by rewrite <- app_assoc.
    + rewrite decide_False by (by intros [? _]). apply IH.
Qed.

(** When every readout source of a region reads one buffer, the region
    has at most one lane set. *)
Lemma lane_sets_of_single n key ro :
  Forall (fun item => name item.1 = n -> item.2 = key) ro ->
  lane_sets_of n ro
  = match lane_set n key ro with
    | [] => []
    | mref_list => [(key, mref_list)]
    end.
Proof.
  intros Hro. unfold lane_sets_of.
  induction Hro as [|[mref k] ro Hk Hro IH]; simpl; [done|].
  rewrite lane_set_cons. unfold lane_step at 2. simpl in *.
  destruct (decide (name mref = n)) as [Hn|Hn].
  - rewrite (Hk Hn). rewrite decide_True by done. simpl.
    by rewrite foldl_lane_step_single.
  - rewrite decide_False by (by intros [? _]). by apply IH.
Qed.

(** C2, as the code has it. A region all of whose readout sources read
    one buffer, at offsets that in sorted order are 0, W, 2W, ... and
    tile the declared length, where W is the width of the widened buffer
    and the buffer has as many rows as lanes times the inferred shot
    count: in the returned region, columns [offset, offset + W) of lane
    [i] are rows i, i + K, i + 2K, ... of the widened buffer, each sample
    converted to the element type of the region by [store]. *)
Theorem round_trip_placement memory_descriptors ro_sources buffers regions
    rname spec key buf width rows num_shots :
  NoDup memory_descriptors.*1 ->
  _extract_memory_regions memory_descriptors ro_sources buffers = Ok regions ->
  infer_num_shots (group_sources memory_descriptors ro_sources) buffers
  = Ok num_shots ->
  dict_get rname memory_descriptors = Some spec ->
  Forall (fun item => name item.1 = rname -> item.2 = key) ro_sources ->
  buffers !! key = Some buf ->
  buffer_wf buf ->
  widen buf = (width, rows) ->
  let lanes := sort_by_offset (lane_set rname key ro_sources) in
  (forall i mref, lanes !! i = Some mref -> offset mref = i * width) ->
  length lanes * width = ParameterSpec.length spec ->
  buffer_shape0 buf = num_shots * length lanes ->
  exists a,
    dict_get rname regions = Some a
    /\ arr_shots a = num_shots
    /\ arr_width a = ParameterSpec.length spec
    /\ forall i mref,
        lanes !! i = Some mref ->
        arr_columns a (offset mref) (offset mref + width)
        = fmap (M:=list) (store (arr_dtype a)) <$> every_nth i (length lanes) rows
        /\ forall s,
            arr_columns a (offset mref) (offset mref + width) !! s
            = fmap (M:=list) (store (arr_dtype a)) <$> rows !! (i + s * length lanes).
Proof.
  intros Hnd Hok Hinfer Hspec Hone Hbuf Hwf Hwiden lanes Htile Hlen Hrows.
  destruct (extract_regions _ _ _ _ Hnd Hok) as (_ & n' & Hinfer' & Hregions).
  rewrite Hinfer in Hinfer'. injection Hinfer' as <-.
  destruct (Hregions rname spec Hspec) as (a & Hget & Ha).
  exists a. split; [done|].
  destruct (assemble_region_shape _ _ _ _ _ _ Ha) as (spec' & Hspec' & Hs & Hw & _).
  rewrite Hspec in Hspec'. injection Hspec' as <-.
  split; [done|]. split; [done|].
  intros i mref Hi.
  assert (lane_sets_of rname ro_sources
          = [(key, lane_set rname key ro_sources)]) as Hsingle.
  { rewrite (lane_sets_of_single rname key) by done.
    destruct (lane_set rname key ro_sources) eqn:Hset; [|done].
    subst lanes. simpl in Hi. by rewrite lookup_nil in Hi. }
  rewrite Hsingle in Ha. subst lanes.
  set (mref_list := lane_set rname key ro_sources) in *.
  unfold assemble_region in Ha. rewrite Hspec in Ha.
  apply bind_Ok_inv in Ha as (a0 & Halloc & Hplace).
  cbn [place_lane_sets] in Hplace.
  apply bind_Ok_inv in Hplace as (a1 & Hplace & [= <-]).
  unfold place_lane_set in Hplace.
  apply bind_Ok_inv in Hplace as (buf' & Hbuf' & Hplace).
  unfold lookup_buffer in Hbuf'. rewrite Hbuf in Hbuf'. injection Hbuf' as <-.
  rewrite Hwiden in Hplace.
  pose proof (widen_wf buf Hwf) as Hrowswf.
  pose proof (widen_rows buf) as Hrowslen. rewrite Hwiden in Hrowswf, Hrowslen.
  simpl in Hrowswf, Hrowslen.
  pose proof (sort_by_offset_length mref_list) as Hlanes.
  pose proof (alloc_shots _ _ _ Halloc) as Hs0.
  pose proof (alloc_wf _ _ _ Halloc) as Hwf0.
  apply alloc_Ok in Halloc as (_ & Hw0 & _).
  destruct (place_lanes_tiled rname (ParameterSpec.length spec)
              (length mref_list) width rows num_shots Hrowswf
              ltac:(lia) ltac:(lia) (sort_by_offset mref_list) 0 a0
              Hs0 Hw0 Hwf0 ltac:(lia) Htile)
    as (a' & Ha' & _ & _ & Hcols).
  rewrite Hplace in Ha'. injection Ha' as <-.
  apply place_lanes_shape in Hplace as (_ & _ & Hd).
  specialize (Hcols i mref Hi). simpl in Hcols.
  rewrite Hlanes, Hd. split; [done|].
  intros s. rewrite Hcols, list_lookup_fmap, every_nth_lookup; [done|].
  apply lookup_lt_Some in Hi. lia.
Qed.
End RoundTrip.

(** * The statements on concrete inputs *)

Section Witnesses.
#[local] Existing Instance Q_model.

Lemma shot_count_derivation_witness :
  (exists mref_name spec rest buf_key mref_list lane_sets sources' buf,
      [("ro", BIT 3); ("aux", REAL 2)] = (mref_name, spec) :: rest
      /\ group_sources [("ro", BIT 3); ("aux", REAL 2)] ro_three_lanes
         = (mref_name, (buf_key, mref_list) :: lane_sets) :: sources'
      /\ mref_list = lane_set mref_name buf_key ro_three_lanes
      /\ ({[ "q0" := buffer_12_1 ]} : gmap string buffer) !! buf_key = Some buf
      /\ infer_num_shots (group_sources [("ro", BIT 3); ("aux", REAL 2)] ro_three_lanes)
           {[ "q0" := buffer_12_1 ]}
         = Ok (buffer_shape0 buf / length mref_list)
      /\ Forall (fun item =>
                   arr_shots item.2 = buffer_shape0 buf / length mref_list)
                [("ro", region_4_3); ("aux", region_4_2_unset)]
      /\ (forall rname rspec,
            dict_get rname [("ro", BIT 3); ("aux", REAL 2)] = Some rspec ->
            exists a,
              dict_get rname [("ro", region_4_3); ("aux", region_4_2_unset)] = Some a
              /\ arr_shots a = buffer_shape0 buf / length mref_list
              /\ arr_width a = ParameterSpec.length rspec))
  /\ infer_num_shots [("ro", [("q0", [MRef "ro" 2; MRef "ro" 0; MRef "ro" 1])])]
       {[ "q0" := buffer_12_1 ]}
     = Ok 4.
Proof.
  split.
  - apply (proj1 shot_count_derivation [("ro", BIT 3); ("aux", REAL 2)] ro_three_lanes
             {[ "q0" := buffer_12_1 ]} [("ro", region_4_3); ("aux", region_4_2_unset)]).
    vm_compute. reflexivity.
  - apply (proj2 shot_count_derivation "ro" "q0" _ _ _ [] []
             {[ "q0" := buffer_12_1 ]} buffer_12_1); reflexivity.
Defined.

Lemma shot_inference_partial_witness :
  _extract_memory_regions [("unused", REAL 2); ("ro", BIT 1)]
    [(MRef "ro" 0, "q0")] {[ "q0" := buffer_6 ]}
  = Raise StopIteration.
Proof.
  apply (proj2 shot_inference_partial).
  apply Forall_cons. split; [by intros [=] | apply Forall_nil_2].
Defined.

Lemma stale_reference_ignored_witness :
  _extract_memory_regions [("ro", BIT 1)]
    [(MRef "ro" 0, "q0"); (MRef "scratch" 0, "q1")] {[ "q0" := buffer_6 ]}
  = _extract_memory_regions [("ro", BIT 1)]
      [(MRef "ro" 0, "q0")] {[ "q0" := buffer_6 ]}.
Proof.
  apply (stale_reference_ignored [("ro", BIT 1)] [(MRef "ro" 0, "q0")] []
           (MRef "scratch" 0) "q1").
  reflexivity.
Defined.

Lemma unused_region_allocated_witness :
  exists num_shots,
    infer_num_shots (group_sources [("ro", BIT 1); ("unused", REAL 2)]
                       [(MRef "ro" 0, "q0")]) {[ "q0" := buffer_6 ]}
    = Ok num_shots
    /\ [("ro", NDArray int64 1 [[I64 1]; [I64 0]; [I64 1]; [I64 1]; [I64 0]; [I64 0]]);
        ("unused", NDArray float64 2 (replicate 6 [Uninit; Uninit]))].*1
       = [("ro", BIT 1); ("unused", REAL 2)].*1
    /\ Forall (fun item => arr_shots item.2 = num_shots)
         [("ro", NDArray int64 1
                   [[I64 1]; [I64 0]; [I64 1]; [I64 1]; [I64 0]; [I64 0]]);
          ("unused", NDArray float64 2 (replicate 6 [Uninit; Uninit]))]
    /\ forall rname spec,
        dict_get rname [("ro", BIT 1); ("unused", REAL 2)] = Some spec ->
        Forall (fun item => name item.1 <> rname) [(MRef "ro" 0, "q0")] ->
        exists a,
          dict_get rname
            [("ro", NDArray int64 1
                      [[I64 1]; [I64 0]; [I64 1]; [I64 1]; [I64 0]; [I64 0]]);
             ("unused", NDArray float64 2 (replicate 6 [Uninit; Uninit]))]
          = Some a
          /\ alloc spec num_shots = Ok a
          /\ arr_shots a = num_shots
          /\ arr_width a = ParameterSpec.length spec
          /\ dict_get (ParameterSpec.type spec) dtype_table = Some (arr_dtype a)
          /\ arr_rows a
             = replicate num_shots (replicate (ParameterSpec.length spec) Uninit).
Proof.
  apply (unused_region_allocated [("ro", BIT 1); ("unused", REAL 2)]
           [(MRef "ro" 0, "q0")] {[ "q0" := buffer_6 ]}).
  - apply (bool_decide_unpack _). vm_compute. exact I.
  - vm_compute. reflexivity.
Defined.

Lemma round_trip_placement_witness :
  exists a,
    dict_get "ro" [("ro", region_2_3)] = Some a
    /\ arr_shots a = 2
    /\ arr_width a = 3
    /\ forall i mref,
        [MRef "ro" 0; MRef "ro" 1; MRef "ro" 2] !! i = Some mref ->
        arr_columns a (offset mref) (offset mref + 1)
        = fmap (M:=list) (store (arr_dtype a))
            <$> every_nth i 3 [[SInt 1]; [SInt 0]; [SInt 1]; [SInt 1]; [SInt 0]; [SInt 0]]
        /\ forall s,
            arr_columns a (offset mref) (offset mref + 1) !! s
            = fmap (M:=list) (store (arr_dtype a))
                <$> [[SInt 1]; [SInt 0]; [SInt 1]; [SInt 1]; [SInt 0]; [SInt 0]]
                    !! (i + s * 3).
Proof.
  apply (round_trip_placement [("ro", BIT 3)] ro_three_lanes
           {[ "q0" := buffer_6 ]} [("ro", region_2_3)] "ro" (BIT 3) "q0"
           buffer_6 1 _ 2).
  - apply (bool_decide_unpack _). vm_compute. exact I.
  - vm_compute. reflexivity.
  - vm_compute. reflexivity.
  - reflexivity.
  - repeat (apply Forall_cons; split; [reflexivity|]). apply Forall_nil_2.
  - reflexivity.
  - exact I.
  - reflexivity.
  - intros [|[|[|i]]] mref; simpl; intros [= <-]; reflexivity.
  - reflexivity.
  - reflexivity.
Defined.

Lemma decode_buffer_cases_witness :
  exists samples,
    decode_buffer words_to_complex32 words_to_i32
      {| dtype := "integer"; data := [1; -2; 4294967295]%Z |}
    = IntBuffer (Dim1 samples)
    /\ samples = [1; -2; -1]%Z /\ Forall is_int32 samples.
Proof.
  apply (decode_buffer_cases words_to_complex32 words_to_i32
           {| dtype := "integer"; data := [1; -2; 4294967295]%Z |}).
  - intros p. unfold words_to_i32. apply Forall_fmap, Forall_true.
    intros z. unfold is_int32. simpl.
    pose proof (Z.mod_pos_bound (z + 2 ^ 31) (2 ^ 32) eq_refl). lia.
  - reflexivity.
Defined.

Lemma empty_result_fallback_witness :
  get_result_memory words_to_complex32 words_to_i32 [("ro", BIT 1)] [] ∅
  = Ok [("ro", NDArray int64 0 [])]
  /\ forall ro_sources,
      ro_sources <> [] ->
      get_result_memory words_to_complex32 words_to_i32 [("ro", BIT 1)]
        ro_sources ∅
      = Ok [].
Proof.
  apply (empty_result_fallback words_to_complex32 words_to_i32 [("ro", BIT 1)] ∅).
  apply fmap_empty.
Defined.

(** A declared region that no readout source names is in the result,
    with its cells as allocated. *)
Lemma unused_region_is_present :
  _extract_memory_regions [("ro", BIT 1); ("unused", REAL 2)]
    [(MRef "ro" 0, "q0")] {[ "q0" := buffer_6 ]}
  = Ok [("ro", NDArray int64 1 [[I64 1]; [I64 0]; [I64 1]; [I64 1]; [I64 0]; [I64 0]]);
        ("unused", NDArray float64 2 (replicate 6 [Uninit; Uninit]))]
  /\ Forall (fun item => name item.1 <> "unused") [(MRef "ro" 0, "q0")]
  /\ ~ (forall regions,
          _extract_memory_regions [("ro", BIT 1); ("unused", REAL 2)]
            [(MRef "ro" 0, "q0")] {[ "q0" := buffer_6 ]} = Ok regions ->
          dict_get "unused" regions = None).
Proof.
  split; [vm_compute; reflexivity|]. split.
  - apply Forall_cons. split; [by intros [=] | apply Forall_nil_2].
  - intros Habsent. specialize (Habsent _ eq_refl). vm_compute in Habsent.
    discriminate.
Qed.

(** A complex buffer of width 2 is widened to the real parts followed by
    the imaginary parts, not to adjacent pairs. *)
Lemma wide_complex_not_adjacent :
  widen (ComplexBuffer (Dim2 2 [[(1, 2); (3, 4)]%Q]))
  = (4, [[SReal 1%Q; SReal 3%Q; SReal 2%Q; SReal 4%Q]])
  /\ (widen (ComplexBuffer (Dim2 2 [[(1, 2); (3, 4)]%Q]))).2
     <> interleave_real_imag <$> [[(1, 2); (3, 4)]%Q].
Proof. split; [reflexivity | by intros [=]]. Qed.

(** Two lanes tile a region of length 2 but their buffer has one row: the
    call returns a region without rows, and reading back the column of
    lane 0 does not give the row of the buffer that belongs to lane 0.
    A complex sample stored in an INTEGER region is truncated. *)
Lemma round_trip_loses_samples :
  (_extract_memory_regions [("ro", INTEGER 2)]
     [(MRef "ro" 0, "q0"); (MRef "ro" 1, "q0")]
     {[ "q0" := IntBuffer (Dim1 [5%Z]) ]}
   = Ok [("ro", NDArray int64 2 [])]
   /\ every_nth 0 2 (widen (IntBuffer (Dim1 [5%Z]))).2 = [[SInt 5]]
   /\ arr_columns (NDArray int64 2 []) 0 1
      <> fmap (M:=list) (store int64)
           <$> every_nth 0 2 (widen (IntBuffer (Dim1 [5%Z]))).2)
  /\ (_extract_memory_regions [("ro", INTEGER 2)] [(MRef "ro" 0, "q0")]
       {[ "q0" := ComplexBuffer (Dim1 [(3 # 2, 5 # 2)%Q]) ]}
     = Ok [("ro", NDArray int64 2 [[I64 1; I64 2]])]
     /\ (widen (ComplexBuffer (Dim1 [(3 # 2, 5 # 2)%Q]))).2
        = [[SReal (3 # 2)%Q; SReal (5 # 2)%Q]]).
Proof.
  split; [split; [|split]|split]; try (vm_compute; reflexivity).
  by intros [=].
Qed.
End Witnesses.

(** * Further properties of the grouping, the sort and the slices *)

(** ** The grouped sources as a map (lines 77-83) *)

Lemma defaultdict_append_keys {A} key (x : A) d :
  (defaultdict_append key x d).*1
  = if dict_mem key d then d.*1 else d.*1 ++ [key].
Proof.
  induction d as [|[k l] d IH]; [done|].
  unfold dict_mem in *. simpl.
  destruct (decide (k = key)) as [->|Hk]; [done|].
  rewrite fmap_cons, IH. simpl. by destruct (dict_get key d).
Qed.

Lemma defaultdict_append_NoDup {A} key (x : A) d :
  NoDup d.*1 -> NoDup (defaultdict_append key x d).*1.
Proof.
  intros Hnd. rewrite defaultdict_append_keys.
  destruct (dict_mem key d) eqn:Hmem; [done|].
  apply NoDup_app. split; [done|]. split; [|apply NoDup_singleton].
  intros k Hk ->%list_elem_of_singleton.
  apply dict_mem_true in Hk. congruence.
Qed.

Lemma lane_sets_of_NoDup n ro : NoDup (lane_sets_of n ro).*1.
Proof.
  unfold lane_sets_of.
  assert (NoDup (@nil (string * list MemoryReference)).*1) as Hnil by constructor.
  revert Hnil. generalize (@nil (string * list MemoryReference)).
  induction ro as [|item ro IH]; intros d Hd; simpl; [done|].
  apply IH. unfold lane_step. case_decide; [|done].
  by apply defaultdict_append_NoDup.
Qed.

Lemma lane_sets_of_lookup n key ro :
  dict_get key (lane_sets_of n ro)
  = match lane_set n key ro with
    | [] => None
    | mref_list => Some mref_list
    end.
Proof.
  destruct (dict_get key (lane_sets_of n ro)) as [l|] eqn:Hget.
  - apply lane_sets_of_elem in Hget as [<- Hne]. by destruct l.
  - pose proof (foldl_lane_step_get n key ro []) as Hl.
    fold (lane_sets_of n ro) in Hl. rewrite Hget in Hl. simpl in Hl.
    by rewrite <- Hl.
Qed.

(** X1. [sources] has one entry per declared region, in declaration order,
    and none for any other name. The entry of a declared region maps each
    buffer key, once, to the references of [ro_sources] that name the
    region and read that key, in the order of [ro_sources]; a key that no
    such reference reads is not in it, so no lane set is empty. *)
Theorem group_sources_refines memory_descriptors ro_sources :
  (group_sources memory_descriptors ro_sources).*1 = memory_descriptors.*1
  /\ (forall rname,
        dict_get rname memory_descriptors = None ->
        dict_get rname (group_sources memory_descriptors ro_sources) = None)
  /\ (forall rname spec,
        dict_get rname memory_descriptors = Some spec ->
        exists mref_dict,
          dict_get rname (group_sources memory_descriptors ro_sources)
          = Some mref_dict
          /\ NoDup mref_dict.*1
          /\ forall key,
              dict_get key mref_dict
              = match lane_set rname key ro_sources with
                | [] => None
                | mref_list => Some mref_list
                end).
Proof.
  split; [apply group_sources_keys|]. split.
  - intros rname Hnone. apply dict_get_None.
    rewrite group_sources_keys. by apply dict_get_None.
  - intros rname spec Hspec. exists (lane_sets_of rname ro_sources).
    split; [by eapply group_sources_lookup|].
    split; [apply lane_sets_of_NoDup|]. intros key. apply lane_sets_of_lookup.
Qed.

(** ** A buffer key that is missing (lines 90-91 and 100) *)

Lemma foldl_lane_step_head n ro :
  forall k l d,
    exists l' d', foldl (lane_step n) ((k, l) :: d) ro = (k, l') :: d'.
Proof.
  induction ro as [|[mref key] ro IH]; intros k l d; simpl; [by eauto|].
  unfold lane_step at 2. simpl. case_decide; [|apply IH].
  case_decide; apply IH.
Qed.

Lemma lane_sets_of_first n pre mref key post :
  Forall (fun item => name item.1 <> n) pre ->
  name mref = n ->
  exists mref_list lane_sets,
    lane_sets_of n (pre ++ (mref, key) :: post) = (key, mref_list) :: lane_sets.
Proof.
  intros Hpre Hn. unfold lane_sets_of. rewrite foldl_app.
  fold (lane_sets_of n pre). rewrite lane_sets_of_unused by done. simpl.
  unfold lane_step at 2. simpl. rewrite decide_True by done. simpl.
  apply foldl_lane_step_head.
Qed.

Section MissingBuffer.
Context `{FloatModel}.

(** X2. The buffer of every readout source of a declared region must be
    among the decoded buffers. When the first readout source that names
    the first declared region reads a key that is missing, the call raises
    the [KeyError] of that key, before anything is allocated; when any
    readout source of a declared region does, the call returns no map. *)
Theorem missing_buffer_raises :
  (forall rname spec rest pre mref key post buffers,
      Forall (fun item => name item.1 <> rname) pre ->
      name mref = rname ->
      buffers !! key = None ->
      _extract_memory_regions ((rname, spec) :: rest)
        (pre ++ (mref, key) :: post) buffers
      = Raise (KeyError key))
  /\ (forall memory_descriptors ro_sources buffers mref key spec,
        (mref, key) ∈ ro_sources ->
        dict_get (name mref) memory_descriptors = Some spec ->
        buffers !! key = None ->
        is_ok (_extract_memory_regions memory_descriptors ro_sources buffers)
        = false).
Proof.
  split.
  - intros rname spec rest pre mref key post buffers Hpre Hn Hmissing.
    unfold _extract_memory_regions. rewrite infer_num_shots_head.
    destruct (lane_sets_of_first rname pre mref key post Hpre Hn)
      as (mref_list & lane_sets & ->).
    unfold lookup_buffer. by rewrite Hmissing.
  - intros memory_descriptors ro_sources buffers mref key spec Hin Hspec Hmissing.
    apply is_ok_false. intros regions Hok.
    destruct (extract_assembles_declared _ _ _ _ _ _ Hok Hspec)
      as (num_shots & a & Ha).
    unfold assemble_region in Ha. rewrite Hspec in Ha.
    apply bind_Ok_inv in Ha as (a0 & _ & Hplace).
    apply place_lane_sets_fit in Hplace. rewrite Forall_forall in Hplace.
    destruct (lane_sets_of_complete (name mref) key mref ro_sources Hin eq_refl)
      as (mref_list & Hget & _).
    apply dict_get_Some_elem, Hplace in Hget as (buf & Hbuf & _).
    simpl in Hbuf. congruence.
Qed.
End MissingBuffer.

(** ** The order of the lanes (line 99) *)

Lemma insert_by_offset_Sorted m l :
  Sorted offset_le l -> Sorted offset_le (insert_by_offset m l).
Proof.
  induction 1 as [|x l Hl IH Hx]; simpl.
  - by repeat constructor.
  - case_decide as Hle.
    + constructor; [by constructor|]. by constructor.
    + constructor; [done|].
      destruct l as [|y l]; simpl in *.
      * constructor. unfold offset_le. lia.
      * case_decide; constructor; unfold offset_le; [lia|].
        by inversion Hx.
Qed.

Lemma sort_by_offset_Sorted l : Sorted offset_le (sort_by_offset l).
Proof.
  induction l as [|m l IH]; simpl; [constructor|].
  by apply insert_by_offset_Sorted.
Qed.

(** X3. The lanes are placed by ascending offset: [sorted_mref] is the
    lane set reordered, it is sorted by offset, and for references of one
    region it does not depend on the order in which [ro_sources] lists
    them. *)
Theorem sort_by_offset_canonical rname mref_list mref_list' :
  Forall (fun mref => name mref = rname) mref_list ->
  mref_list ≡ₚ mref_list' ->
  sort_by_offset mref_list ≡ₚ mref_list
  /\ Sorted offset_le (sort_by_offset mref_list)
  /\ sort_by_offset mref_list = sort_by_offset mref_list'.
Proof.
  intros Hname Hperm. split; [apply sort_by_offset_perm|].
  split; [apply sort_by_offset_Sorted|].
  assert (Transitive offset_le) as Htrans.
  { intros x y z. unfold offset_le. lia. }
  apply (Sorted_unique_strong offset_le); try apply sort_by_offset_Sorted.
  - intros x1 x2 Hx1 Hx2 H12 H21. unfold offset_le in *.
    rewrite sort_by_offset_perm in Hx1.
    rewrite sort_by_offset_perm, <- Hperm in Hx2.
    rewrite Forall_forall in Hname.
    pose proof (Hname _ Hx1) as Hn1. pose proof (Hname _ Hx2) as Hn2.
    destruct x1 as [n1 o1], x2 as [n2 o2]. simpl in *. f_equal; [congruence | lia].
  - by rewrite !sort_by_offset_perm.
Qed.

(** ** The strided slice (line 113) *)

(** X4. [buf[i::K]] for a lane count [K >= 1]: its row [s] is row
    [i + s * K] of the buffer, so row [j] of the buffer is row [j / K] of
    the slice of lane [j mod K]; and a buffer of [n * K] rows gives each of
    the [K] lanes exactly [n] rows. *)
Theorem every_nth_demultiplexes {A} (l : list A) K :
  0 < K ->
  (forall i s, every_nth i K l !! s = l !! (i + s * K))
  /\ (forall j, every_nth (j mod K) K l !! (j / K) = l !! j)
  /\ (forall n i, length l = n * K -> i < K -> length (every_nth i K l) = n).
Proof.
  intros HK. split; [by apply every_nth_lookup|]. split.
  - intros j. rewrite every_nth_lookup by done. f_equal.
    pose proof (Nat.div_mod_eq j K). lia.
  - intros n i Hlen Hi. by apply every_nth_length.
Qed.

(** ** [get_result] when buffers came back (lines 225-230) *)

Lemma dict_set_keys_NoDup {V} k (v : V) d : NoDup d.*1 -> NoDup (dict_set k v d).*1.
Proof.
  intros Hnd. destruct (decide (k ∈ d.*1)) as [Hin|Hout].
  - assert ((dict_set k v d).*1 = d.*1) as ->; [|done].
    clear Hnd. induction d as [|[k' v'] d IH]; simpl in *.
    { by apply elem_of_nil in Hin. }
    case_decide as Hk; simpl; [done|]. f_equal. apply IH.
    by apply elem_of_cons in Hin as [->|Hin].
  - rewrite dict_set_fresh by done. rewrite fmap_app. simpl.
    apply NoDup_app. split; [done|]. split; [|apply NoDup_singleton].
    by intros k' Hk' ->%list_elem_of_singleton.
Qed.

Lemma dict_rebuild {V} (d acc : dict V) :
  NoDup (acc.*1 ++ d.*1) ->
  foldl (fun m item => dict_set item.1 item.2 m) acc d = acc ++ d.
Proof.
  revert acc. induction d as [|[k v] d IH]; intros acc Hnd; simpl.
  - by rewrite app_nil_r.
  - rewrite fmap_cons in Hnd. simpl in Hnd.
    assert (k ∉ acc.*1) as Hfresh.
    { apply NoDup_app in Hnd as (_ & Hdisj & _). intros Hin.
      apply (Hdisj _ Hin). by left. }
    rewrite dict_set_fresh by done. rewrite IH.
    + by rewrite <- app_assoc.
    + rewrite fmap_app. simpl. rewrite <- app_assoc. simpl.
      by rewrite <- Permutation_middle in Hnd |- *.
Qed.

Section GetResultFacts.
Context `{FloatModel} {payload : Type}.
Variable to_complex32 : payload -> list complex.
Variable to_i32 : payload -> list Z.

Lemma assemble_regions_keys_NoDup memory_descriptors buffers num_shots sources :
  forall regions regions',
    NoDup regions.*1 ->
    assemble_regions memory_descriptors buffers num_shots sources regions
    = Ok regions' ->
    NoDup regions'.*1.
Proof.
  induction sources as [|[mref_name mref_dict] rest IH]; simpl;
    intros regions regions' Hnd.
  - by intros [= <-].
  - intros (a & _ & Hrest)%bind_Ok_inv.
    eapply IH; [|exact Hrest]. by apply dict_set_keys_NoDup.
Qed.

(** X5. When at least one buffer came back, the readout data of
    [get_result] is what [_extract_memory_regions] makes of the decoded
    buffers: the same regions in the same order, or the same exception;
    the fallback region "ro" is not added. *)
Theorem get_result_extracts memory_descriptors ro_sources
    (results_buffers : gmap string (ExecutionResult payload)) :
  results_buffers <> ∅ ->
  get_result_memory to_complex32 to_i32 memory_descriptors ro_sources
    results_buffers
  = _extract_memory_regions memory_descriptors ro_sources
      (decode_buffer to_complex32 to_i32 <$> results_buffers).
Proof.
  intros Hne. unfold get_result_memory.
  rewrite decide_True.
  2:{ apply map_size_non_empty_iff. by rewrite fmap_empty_iff. }
  destruct (_extract_memory_regions memory_descriptors ro_sources
              (decode_buffer to_complex32 to_i32 <$> results_buffers))
    as [regions|e] eqn:Hextract; simpl; [|done].
  f_equal. rewrite dict_rebuild; [done|]. simpl.
  unfold _extract_memory_regions in Hextract.
  apply bind_Ok_inv in Hextract as (num_shots & _ & Hloop).
  eapply assemble_regions_keys_NoDup; [|exact Hloop]. constructor.
Qed.
End GetResultFacts.

(** * The cells of an assembled region *)

Section Cells.
Context `{FloatModel}.

Lemma set_columns_lookup start (vals row : list cell) c :
  start + length vals <= length row ->
  set_columns start vals row !! c
  = if decide (start <= c < start + length vals) then vals !! (c - start)
    else row !! c.
Proof.
  intros Hfit. unfold set_columns.
  destruct (decide (c < start)) as [Hlt|Hge].
  - rewrite decide_False by lia.
    rewrite lookup_app_l by (rewrite length_take; lia).
    by apply lookup_take_lt.
  - rewrite lookup_app_r by (rewrite length_take; lia).
    rewrite length_take. replace (c - start `min` length row) with (c - start) by lia.
    case_decide as Hin.
    + by rewrite lookup_app_l by lia.
    + rewrite lookup_app_r by lia. rewrite lookup_drop. f_equal. lia.
Qed.

Lemma alloc_cell spec num_shots a s c :
  alloc spec num_shots = Ok a ->
  s < num_shots -> c < ParameterSpec.length spec ->
  arr_cell a s c = Some Uninit.
Proof.
  intros (_ & _ & Hrows)%alloc_Ok Hs Hc. unfold arr_cell. rewrite Hrows.
  rewrite lookup_replicate_2 by done. simpl. by apply lookup_replicate_2.
Qed.

(** One assignment, cell by cell. *)
Lemma assign_columns_cell a start src width a' :
  assign_columns a start src = Ok a' ->
  ndarray_wf a ->
  Forall (fun vals => length vals = width) src ->
  start + width <= arr_width a ->
  ndarray_wf a'
  /\ forall s c,
      s < arr_shots a ->
      arr_cell a' s c
      = if decide (start <= c < start + width) then
          vals ← broadcast_row (arr_shots a) src s;
          store (arr_dtype a) <$> vals !! (c - start)
        else arr_cell a s c.
Proof.
  intros Hassign Hwf Hsrc Hfit.
  unfold ndarray_wf in *. rewrite Forall_forall in Hwf. rewrite Forall_forall in Hsrc.
  assert (forall row vals,
             row ∈ arr_rows a -> vals ∈ src ->
             start + length (store (arr_dtype a) <$> vals) <= length row
             /\ length (store (arr_dtype a) <$> vals) = width) as Hlens.
  { intros row vals Hr Hv. rewrite length_fmap, (Hsrc _ Hv), (Hwf _ Hr). lia. }
  unfold assign_columns in Hassign. unfold broadcast_row, arr_cell, arr_shots in *.
  destruct (decide (length src = length (arr_rows a))) as [Hlen|Hlen].
  - injection Hassign as <-. simpl. split.
    + apply Forall_forall. intros row' [s Hs]%list_elem_of_lookup.
      apply lookup_zip_with_Some in Hs as (row & vals & -> & Hr & Hv).
      apply list_elem_of_lookup_2 in Hr, Hv.
      destruct (Hlens row vals Hr Hv) as [Hl _].
      rewrite set_columns_length by done. by apply Hwf.
    + intros s c Hs. rewrite lookup_zip_with.
      destruct (lookup_lt_is_Some_2 (arr_rows a) s Hs) as [row Hr].
      destruct (lookup_lt_is_Some_2 src s ltac:(lia)) as [vals Hv].
      rewrite Hr, Hv. simpl.
      pose proof (list_elem_of_lookup_2 _ _ _ Hr) as Hr'.
      pose proof (list_elem_of_lookup_2 _ _ _ Hv) as Hv'.
      destruct (Hlens row vals Hr' Hv') as [Hl Hw].
      rewrite set_columns_lookup by done. rewrite Hw.
      case_decide; [|done]. by rewrite list_lookup_fmap.
  - destruct src as [|vals [|]]; try done. injection Hassign as <-. simpl.
    assert (vals ∈ [vals]) as Hv' by (by left). split.
    + apply Forall_fmap, Forall_forall. intros row Hr. simpl.
      destruct (Hlens row vals Hr Hv') as [Hl _].
      rewrite set_columns_length by done. by apply Hwf.
    + intros s c Hs. rewrite list_lookup_fmap.
      destruct (lookup_lt_is_Some_2 (arr_rows a) s Hs) as [row Hr].
      rewrite Hr. simpl.
      pose proof (list_elem_of_lookup_2 _ _ _ Hr) as Hr'.
      destruct (Hlens row vals Hr' Hv') as [Hl Hw].
      rewrite set_columns_lookup by done. rewrite Hw.
      case_decide; [|done]. by rewrite list_lookup_fmap.
Qed.

Lemma place_lane_cell rname region_width num_lanes width rows a i mref a' :
  place_lane rname region_width num_lanes width rows a i mref = Ok a' ->
  ndarray_wf a -> arr_width a = region_width ->
  Forall (fun vals => length vals = width) rows ->
  ndarray_wf a'
  /\ forall s c,
      s < arr_shots a ->
      arr_cell a' s c
      = if decide (offset mref <= c < offset mref + width) then
          vals ← broadcast_row (arr_shots a) (every_nth i num_lanes rows) s;
          store (arr_dtype a) <$> vals !! (c - offset mref)
        else arr_cell a s c.
Proof.
  unfold place_lane. case_decide as Hover; [done|].
  intros Hassign Hwf Hwidth Hrows.
  eapply assign_columns_cell; [done | done | | lia].
  rewrite Forall_forall in Hrows. apply Forall_forall.
  intros vals Hin%every_nth_elem_of. by apply Hrows.
Qed.

Section Lanes.
Variables (rname : string) (region_width num_lanes width : nat).
Variable rows : list (list sample).
Hypothesis Hrows : Forall (fun vals => length vals = width) rows.

Lemma place_lanes_wf lanes :
  forall i a a',
    place_lanes rname region_width num_lanes width rows i lanes a = Ok a' ->
    ndarray_wf a -> arr_width a = region_width -> ndarray_wf a'.
Proof.
  induction lanes as [|mref rest IH]; simpl; intros i a a'.
  - by intros [= <-].
  - intros (a1 & H1 & H2)%bind_Ok_inv Hwf Hwidth.
    pose proof (place_lane_shape _ _ _ _ _ _ _ _ _ H1) as (_ & Hw1 & _).
    destruct (place_lane_cell _ _ _ _ _ _ _ _ _ H1 Hwf Hwidth Hrows) as [Hwf1 _].
    eapply IH; [exact H2 | done | congruence].
Qed.

(** Lanes that do not cover column [c] leave it as it was. *)
Lemma place_lanes_frame c lanes :
  Forall (fun mref => ~ (offset mref <= c < offset mref + width)) lanes ->
  forall i a a',
    place_lanes rname region_width num_lanes width rows i lanes a = Ok a' ->
    ndarray_wf a -> arr_width a = region_width ->
    forall s, s < arr_shots a -> arr_cell a' s c = arr_cell a s c.
Proof.
  induction 1 as [|mref rest Hmref Hrest IH]; simpl; intros i a a'.
  - by intros [= <-].
  - intros (a1 & H1 & H2)%bind_Ok_inv Hwf Hwidth s Hs.
    pose proof (place_lane_shape _ _ _ _ _ _ _ _ _ H1) as (Hs1 & Hw1 & _).
    destruct (place_lane_cell _ _ _ _ _ _ _ _ _ H1 Hwf Hwidth Hrows)
      as [Hwf1 Hcell1].
    rewrite (IH _ _ _ H2 Hwf1) by congruence.
    rewrite Hcell1 by done. by rewrite decide_False.
Qed.

(** The last lane that covers column [c] decides it. *)
Lemma place_lanes_last c before mref after :
  offset mref <= c < offset mref + width ->
  Forall (fun mref' => ~ (offset mref' <= c < offset mref' + width)) after ->
  forall i a a',
    place_lanes rname region_width num_lanes width rows i
      (before ++ mref :: after) a = Ok a' ->
    ndarray_wf a -> arr_width a = region_width ->
    forall s,
      s < arr_shots a ->
      arr_cell a' s c
      = (vals ← broadcast_row (arr_shots a)
                  (every_nth (i + length before) num_lanes rows) s;
         store (arr_dtype a) <$> vals !! (c - offset mref)).
Proof.
  intros Hcover Hafter.
  induction before as [|x before IH]; simpl; intros i a a'.
  - intros (a1 & H1 & H2)%bind_Ok_inv Hwf Hwidth s Hs.
    pose proof (place_lane_shape _ _ _ _ _ _ _ _ _ H1) as (Hs1 & Hw1 & _).
    destruct (place_lane_cell _ _ _ _ _ _ _ _ _ H1 Hwf Hwidth Hrows)
      as [Hwf1 Hcell1].
    rewrite (place_lanes_frame c after Hafter _ _ _ H2 Hwf1) by congruence.
    rewrite Hcell1 by done. rewrite decide_True by done.
    by rewrite Nat.add_0_r.
  - intros (a1 & H1 & H2)%bind_Ok_inv Hwf Hwidth s Hs.
    pose proof (place_lane_shape _ _ _ _ _ _ _ _ _ H1) as (Hs1 & Hw1 & Hd1).
    destruct (place_lane_cell _ _ _ _ _ _ _ _ _ H1 Hwf Hwidth Hrows)
      as [Hwf1 _].
    rewrite (IH _ _ _ H2 Hwf1) by congruence.
    rewrite Hs1, Hd1. do 3 f_equal. lia.
Qed.
End Lanes.
End Cells.

Section LaneSets.
Context `{FloatModel}.
Variable buffers : gmap string buffer.
Hypothesis Hbuffers : buffers_wf buffers.
Variables (rname : string) (region_width : nat).

Lemma place_lane_set_Ok_inv a item a' :
  place_lane_set buffers rname region_width a item = Ok a' ->
  exists buf,
    buffers !! item.1 = Some buf
    /\ place_lanes rname region_width (length item.2) (widen buf).1 (widen buf).2
         0 (sort_by_offset item.2) a = Ok a'.
Proof.
  destruct item as [key mref_list]. unfold place_lane_set.
  intros (buf & Hbuf & Hplace)%bind_Ok_inv. unfold lookup_buffer in Hbuf.
  destruct (buffers !! key) as [buf'|] eqn:Hlookup; [|done].
  injection Hbuf as ->. exists buf. split; [done|].
  by destruct (widen buf).
Qed.

Lemma place_lane_set_wf a item a' :
  place_lane_set buffers rname region_width a item = Ok a' ->
  ndarray_wf a -> arr_width a = region_width -> ndarray_wf a'.
Proof.
  intros (buf & Hbuf & Hplace)%place_lane_set_Ok_inv Hwf Hwidth.
  eapply place_lanes_wf; [|exact Hplace|done|done].
  apply widen_wf. by eapply Hbuffers.
Qed.

Lemma place_lane_set_frame c a item a' :
  lane_set_misses buffers c item ->
  place_lane_set buffers rname region_width a item = Ok a' ->
  ndarray_wf a -> arr_width a = region_width ->
  forall s, s < arr_shots a -> arr_cell a' s c = arr_cell a s c.
Proof.
  intros Hmiss (buf & Hbuf & Hplace)%place_lane_set_Ok_inv Hwf Hwidth.
  pose proof (widen_wf buf (Hbuffers _ _ Hbuf)) as Hrows.
  assert (Forall (fun mref => ~ (offset mref <= c < offset mref + (widen buf).1))
            (sort_by_offset item.2)) as Hsorted.
  { rewrite sort_by_offset_perm. by apply Hmiss. }
  exact (place_lanes_frame _ _ _ _ _ Hrows c _ Hsorted _ _ _ Hplace Hwf Hwidth).
Qed.

Lemma place_lane_sets_app sets1 sets2 :
  forall a a',
    place_lane_sets buffers rname region_width (sets1 ++ sets2) a = Ok a' ->
    exists a1,
      place_lane_sets buffers rname region_width sets1 a = Ok a1
      /\ place_lane_sets buffers rname region_width sets2 a1 = Ok a'.
Proof.
  induction sets1 as [|item sets1 IH]; simpl; intros a a' Hplace.
  - by exists a.
  - apply bind_Ok_inv in Hplace as (a0 & H0 & Hrest).
    destruct (IH _ _ Hrest) as (a1 & H1 & H2). exists a1. by rewrite H0.
Qed.

Lemma place_lane_sets_wf sets :
  forall a a',
    place_lane_sets buffers rname region_width sets a = Ok a' ->
    ndarray_wf a -> arr_width a = region_width -> ndarray_wf a'.
Proof.
  induction sets as [|item rest IH]; simpl; intros a a'.
  - by intros [= <-].
  - intros (a1 & H1 & H2)%bind_Ok_inv Hwf Hwidth.
    pose proof (place_lane_set_shape _ _ _ _ _ _ H1) as (_ & Hw1 & _).
    eapply IH; [exact H2 | by eapply place_lane_set_wf | congruence].
Qed.

Lemma place_lane_sets_frame c sets :
  Forall (lane_set_misses buffers c) sets ->
  forall a a',
    place_lane_sets buffers rname region_width sets a = Ok a' ->
    ndarray_wf a -> arr_width a = region_width ->
    forall s, s < arr_shots a -> arr_cell a' s c = arr_cell a s c.
Proof.
  induction 1 as [|item rest Hitem Hrest IH]; simpl; intros a a'.
  - by intros [= <-].
  - intros (a1 & H1 & H2)%bind_Ok_inv Hwf Hwidth s Hs.
    pose proof (place_lane_set_shape _ _ _ _ _ _ H1) as (Hs1 & Hw1 & _).
    rewrite (IH _ _ H2) by (try eapply place_lane_set_wf; done || congruence).
    by eapply place_lane_set_frame.
Qed.

(** The last lane, in the order of the two loops, that covers a column
    decides it. *)
Lemma place_lane_sets_last c sets1 key mref_list sets2 buf before mref after :
  buffers !! key = Some buf ->
  sort_by_offset mref_list = before ++ mref :: after ->
  offset mref <= c < offset mref + (widen buf).1 ->
  Forall (fun mref' => ~ (offset mref' <= c < offset mref' + (widen buf).1)) after ->
  Forall (lane_set_misses buffers c) sets2 ->
  forall a a',
    place_lane_sets buffers rname region_width
      (sets1 ++ (key, mref_list) :: sets2) a = Ok a' ->
    ndarray_wf a -> arr_width a = region_width ->
    forall s,
      s < arr_shots a ->
      arr_cell a' s c
      = (vals ← broadcast_row (arr_shots a)
                  (every_nth (length before) (length mref_list) (widen buf).2) s;
         store (arr_dtype a) <$> vals !! (c - offset mref)).
Proof.
  intros Hbuf Hsorted Hcover Hafter Hsets2 a a' Hplace Hwf Hwidth s Hs.
  apply place_lane_sets_app in Hplace as (a1 & H1 & Hplace).
  cbn [place_lane_sets] in Hplace. apply bind_Ok_inv in Hplace as (a2 & H2 & H3).
  pose proof (place_lane_sets_shape _ _ _ _ _ _ H1) as (Hs1 & Hw1 & Hd1).
  pose proof (place_lane_sets_wf _ _ _ H1 Hwf Hwidth) as Hwf1.
  pose proof (place_lane_set_shape _ _ _ _ _ _ H2) as (Hs2 & Hw2 & Hd2).
  pose proof (place_lane_set_wf _ _ _ H2 Hwf1 ltac:(congruence)) as Hwf2.
  rewrite (place_lane_sets_frame c sets2 Hsets2 _ _ H3 Hwf2) by congruence.
  apply place_lane_set_Ok_inv in H2 as (buf' & Hbuf' & H2). simpl in Hbuf', H2.
  rewrite Hbuf in Hbuf'. injection Hbuf' as <-. rewrite Hsorted in H2.
  rewrite (place_lanes_last _ _ _ _ _ (widen_wf buf (Hbuffers _ _ Hbuf))
             c before mref after Hcover Hafter _ _ _ H2 Hwf1)
    by congruence.
  by rewrite Hs1, Hd1.
Qed.
End LaneSets.

(** ** What a call that returns has written *)

Lemma elem_of_lane_set n key ro mref :
  mref ∈ lane_set n key ro <-> (mref, key) ∈ ro /\ name mref = n.
Proof.
  unfold lane_set. rewrite list_elem_of_fmap. split.
  - intros ([m k] & -> & [[Hn Hk] Hin]%list_elem_of_filter). simpl in *.
    by subst.
  - intros [Hin Hn]. exists (mref, key). split; [done|].
    by apply list_elem_of_filter.
Qed.

Lemma lane_set_NoDup n key ro : NoDup ro.*1 -> NoDup (lane_set n key ro).
Proof.
  intros Hnd. unfold lane_set. eapply sublist_NoDup; [exact Hnd|].
  apply fmap_sublist, sublist_filter.
Qed.

Lemma lane_sets_of_entry n ro key mref_list :
  (key, mref_list) ∈ lane_sets_of n ro ->
  mref_list = lane_set n key ro /\ mref_list <> [].
Proof.
  intros Hin. apply lane_sets_of_elem.
  apply dict_get_NoDup; [apply lane_sets_of_NoDup | done].
Qed.

Section Written.
Context `{FloatModel}.

Lemma extract_region_inv memory_descriptors ro_sources buffers regions rname a :
  NoDup memory_descriptors.*1 ->
  _extract_memory_regions memory_descriptors ro_sources buffers = Ok regions ->
  dict_get rname regions = Some a ->
  exists spec num_shots a0,
    dict_get rname memory_descriptors = Some spec
    /\ infer_num_shots (group_sources memory_descriptors ro_sources) buffers
       = Ok num_shots
    /\ alloc spec num_shots = Ok a0
    /\ place_lane_sets buffers rname (ParameterSpec.length spec)
         (lane_sets_of rname ro_sources) a0 = Ok a.
Proof.
  intros Hnd Hok Hget.
  destruct (extract_regions _ _ _ _ Hnd Hok) as (Hkeys & n & Hinfer & Hregions).
  destruct (dict_get rname memory_descriptors) as [spec|] eqn:Hspec.
  2:{ apply dict_get_None in Hspec. rewrite <- Hkeys in Hspec.
      apply dict_get_None in Hspec. congruence. }
  destruct (Hregions rname spec Hspec) as (a' & Hget' & Ha).
  rewrite Hget in Hget'. injection Hget' as <-.
  unfold assemble_region in Ha. rewrite Hspec in Ha.
  apply bind_Ok_inv in Ha as (a0 & Halloc & Hplace).
  by exists spec, n, a0.
Qed.

(** X6. Every region of the returned map is a rectangular array of the
    inferred number of shots by the declared length of its region, with
    the element type of the declared type, however many lanes and buffers
    were copied into it. *)
Theorem assembled_regions_shape memory_descriptors ro_sources buffers regions :
  buffers_wf buffers ->
  _extract_memory_regions memory_descriptors ro_sources buffers = Ok regions ->
  exists num_shots,
    infer_num_shots (group_sources memory_descriptors ro_sources) buffers
    = Ok num_shots
    /\ Forall (fun item =>
                 exists spec,
                   dict_get item.1 memory_descriptors = Some spec
                   /\ arr_shots item.2 = num_shots
                   /\ arr_width item.2 = ParameterSpec.length spec
                   /\ dict_get (ParameterSpec.type spec) dtype_table
                      = Some (arr_dtype item.2)
                   /\ ndarray_wf item.2) regions.
Proof.
  intros Hbuffers. unfold _extract_memory_regions.
  intros (num_shots & Hinfer & Hloop)%bind_Ok_inv.
  exists num_shots. split; [done|].
  eapply assemble_regions_Forall; [|apply Forall_nil_2|exact Hloop].
  intros rname mref_dict a _ Ha. simpl.
  destruct (assemble_region_shape _ _ _ _ _ _ Ha) as (spec & Hspec & Hs & Hw & Hd).
  exists spec. repeat split; try done.
  unfold assemble_region in Ha. rewrite Hspec in Ha.
  apply bind_Ok_inv in Ha as (a0 & Halloc & Hplace).
  eapply place_lane_sets_wf; [done | exact Hplace | by eapply alloc_wf|].
  by apply alloc_Ok in Halloc as (_ & ? & _).
Qed.

(** X7. A column of a region that no readout source of the region covers
    is never assigned: in every row of the returned region it is as
    [np.ndarray] allocated it. *)
Theorem uncovered_column_uninit memory_descriptors ro_sources buffers regions
    rname a c :
  NoDup memory_descriptors.*1 ->
  buffers_wf buffers ->
  _extract_memory_regions memory_descriptors ro_sources buffers = Ok regions ->
  dict_get rname regions = Some a ->
  Forall (fun item =>
            name item.1 = rname ->
            forall buf,
              buffers !! item.2 = Some buf ->
              ~ (offset item.1 <= c < offset item.1 + (widen buf).1)) ro_sources ->
  c < arr_width a ->
  forall s, s < arr_shots a -> arr_cell a s c = Some Uninit.
Proof.
  intros Hnd Hbuffers Hok Hget Hmiss Hc s Hs.
  destruct (extract_region_inv _ _ _ _ _ _ Hnd Hok Hget)
    as (spec & n & a0 & Hspec & _ & Halloc & Hplace).
  pose proof (place_lane_sets_shape _ _ _ _ _ _ Hplace) as (Hs0 & Hw0 & _).
  pose proof (alloc_shots _ _ _ Halloc) as Hn.
  pose proof (alloc_wf _ _ _ Halloc) as Hwf0.
  pose proof Halloc as (_ & Hwidth0 & _)%alloc_Ok.
  assert (Forall (lane_set_misses buffers c) (lane_sets_of rname ro_sources))
    as Hsets.
  { apply Forall_forall. intros [key mref_list] [-> _]%lane_sets_of_entry buf Hbuf.
    simpl in *. apply Forall_forall. intros mref [Hin Hname]%elem_of_lane_set.
    rewrite Forall_forall in Hmiss. by apply (Hmiss _ Hin Hname buf). }
  rewrite (place_lane_sets_frame buffers Hbuffers rname _ c _ Hsets _ _ Hplace
             Hwf0 Hwidth0) by lia.
  eapply alloc_cell; [done | lia | lia].
Qed.

(** A column covered by one readout source only: in row [s] of the
    returned region it holds what the assignment of line 113 gave it, from
    the rows [i], [i + K], ... of the widened buffer, where [i] is the rank
    of the reference among the [K] lanes of its buffer sorted by offset. *)
Lemma covered_cell memory_descriptors ro_sources buffers regions
    rname a mref key buf i c :
  NoDup memory_descriptors.*1 ->
  NoDup ro_sources.*1 ->
  buffers_wf buffers ->
  _extract_memory_regions memory_descriptors ro_sources buffers = Ok regions ->
  dict_get rname regions = Some a ->
  name mref = rname ->
  buffers !! key = Some buf ->
  sort_by_offset (lane_set rname key ro_sources) !! i = Some mref ->
  offset mref <= c < offset mref + (widen buf).1 ->
  Forall (fun item =>
            name item.1 = rname ->
            forall buf',
              buffers !! item.2 = Some buf' ->
              offset item.1 <= c < offset item.1 + (widen buf').1 ->
              item.1 = mref) ro_sources ->
  forall s,
    s < arr_shots a ->
    arr_cell a s c
    = (vals ← broadcast_row (arr_shots a)
                (every_nth i (length (lane_set rname key ro_sources))
                   (widen buf).2) s;
       store (arr_dtype a) <$> vals !! (c - offset mref)).
Proof.
  intros Hnd Hro Hbuffers Hok Hget Hname Hbuf Hi Hcover Hunique s Hs.
  rewrite Forall_forall in Hunique.
  destruct (extract_region_inv _ _ _ _ _ _ Hnd Hok Hget)
    as (spec & n & a0 & Hspec & _ & Halloc & Hplace).
  pose proof (place_lane_sets_shape _ _ _ _ _ _ Hplace) as (Hs0 & Hw0 & Hd0).
  pose proof (alloc_wf _ _ _ Halloc) as Hwf0.
  pose proof Halloc as (_ & Hwidth0 & _)%alloc_Ok.
  set (mref_list := lane_set rname key ro_sources) in *.
  assert (mref ∈ mref_list) as Hmref.
  { rewrite <- (sort_by_offset_perm mref_list).
    by eapply list_elem_of_lookup_2. }
  pose proof Hmref as [Hmref_in _]%elem_of_lane_set.
  assert ((key, mref_list) ∈ lane_sets_of rname ro_sources) as Hentry.
  { apply dict_get_Some_elem. rewrite lane_sets_of_lookup.
    fold mref_list. destruct mref_list; [by apply elem_of_nil in Hmref | done]. }
  apply list_elem_of_split in Hentry as (sets1 & sets2 & Hsets).
  apply list_elem_of_split_length in Hi as (before & after & Hsorted & ->).
  pose proof (lane_sets_of_NoDup rname ro_sources) as Hkeys.
  rewrite Hsets, fmap_app, fmap_cons in Hkeys. simpl in Hkeys.
  apply NoDup_app in Hkeys as (_ & _ & [Hkey2 _]%NoDup_cons).
  assert (NoDup (before ++ mref :: after)) as Hsorted_nd.
  { rewrite <- Hsorted, sort_by_offset_perm. by apply lane_set_NoDup. }
  apply NoDup_app in Hsorted_nd as (_ & _ & [Hafter_nd _]%NoDup_cons).
  rewrite Hsets in Hplace.
  assert (Forall (fun mref' => ~ (offset mref' <= c < offset mref' + (widen buf).1))
            after) as Hafter.
  { apply Forall_forall. intros mref' Hin' Hcover'.
    assert (mref' ∈ mref_list) as [Hin Hname']%elem_of_lane_set.
    { rewrite <- (sort_by_offset_perm mref_list), Hsorted.
      apply elem_of_app. right. by right. }
    pose proof (Hunique _ Hin Hname' buf Hbuf Hcover') as Heq. simpl in Heq.
    by subst mref'. }
  assert (Forall (lane_set_misses buffers c) sets2) as Hsets2.
  { apply Forall_forall. intros [key' mref_list'] Hin2 buf' Hbuf'. simpl in *.
    apply Forall_forall. intros mref' Hin' Hcover'.
    assert (key' ∈ sets2.*1) as Hk2.
    { apply list_elem_of_fmap. by exists (key', mref_list'). }
    assert ((key', mref_list') ∈ lane_sets_of rname ro_sources) as Hentry'.
    { rewrite Hsets. apply elem_of_app. right. by right. }
    apply lane_sets_of_entry in Hentry' as [-> _].
    apply elem_of_lane_set in Hin' as [Hin Hname'].
    pose proof (Hunique _ Hin Hname' buf' Hbuf' Hcover') as Heq. simpl in Heq.
    subst mref'. apply Hkey2.
    assert (key' = key) as <-; [|done].
    clear -Hro Hin Hmref_in.
    induction ro_sources as [|[m k] ro IH]; [by apply elem_of_nil in Hin|].
    rewrite fmap_cons in Hro. apply NoDup_cons in Hro as [Hm Hro]. simpl in Hm.
    apply elem_of_cons in Hin as [[= <- <-]|Hin];
      apply elem_of_cons in Hmref_in as [[= <-]|Hmref_in]; try done.
    - exfalso. apply Hm. apply list_elem_of_fmap. by exists (mref, key).
    - exfalso. apply Hm. apply list_elem_of_fmap. by exists (mref, key').
    - by apply IH. }
  rewrite (place_lane_sets_last buffers Hbuffers rname _ c sets1 key mref_list sets2
             buf before mref after Hbuf Hsorted Hcover Hafter Hsets2 a0 a Hplace
             Hwf0 Hwidth0 s) by lia.
  by rewrite Hs0, Hd0.
Qed.

(** X8. A column covered by one readout source only, whose buffer holds
    as many rows per lane as the region has shots: in row [s] of the
    returned region the column holds the sample of row [i + s * K] of the
    widened buffer, converted to the element type of the region, where [i]
    is the rank of the reference among the [K] lanes of its buffer sorted
    by offset. *)
Theorem covered_column_value memory_descriptors ro_sources buffers regions
    rname a mref key buf i c :
  NoDup memory_descriptors.*1 ->
  NoDup ro_sources.*1 ->
  buffers_wf buffers ->
  _extract_memory_regions memory_descriptors ro_sources buffers = Ok regions ->
  dict_get rname regions = Some a ->
  name mref = rname ->
  buffers !! key = Some buf ->
  sort_by_offset (lane_set rname key ro_sources) !! i = Some mref ->
  offset mref <= c < offset mref + (widen buf).1 ->
  Forall (fun item =>
            name item.1 = rname ->
            forall buf',
              buffers !! item.2 = Some buf' ->
              offset item.1 <= c < offset item.1 + (widen buf').1 ->
              item.1 = mref) ro_sources ->
  buffer_shape0 buf = arr_shots a * length (lane_set rname key ro_sources) ->
  forall s,
    s < arr_shots a ->
    exists vals v,
      (widen buf).2 !! (i + s * length (lane_set rname key ro_sources)) = Some vals
      /\ vals !! (c - offset mref) = Some v
      /\ arr_cell a s c = Some (store (arr_dtype a) v).
Proof.
  intros Hnd Hro Hbuffers Hok Hget Hname Hbuf Hi Hcover Hunique Hrows s Hs.
  rewrite (covered_cell _ _ _ _ _ _ _ _ _ _ _ Hnd Hro Hbuffers Hok Hget Hname
             Hbuf Hi Hcover Hunique s Hs).
  pose proof (lookup_lt_Some _ _ _ Hi) as Hlt.
  rewrite sort_by_offset_length in Hlt.
  set (K := length (lane_set rname key ro_sources)) in *.
  pose proof (widen_rows buf) as Hlen. rewrite Hrows in Hlen.
  pose proof (every_nth_length _ K i _ Hlt Hlen) as Hlane.
  unfold broadcast_row. rewrite decide_True by done.
  rewrite every_nth_lookup by lia.
  destruct (lookup_lt_is_Some_2 (widen buf).2 (i + s * K)) as [vals Hvals]; [nia|].
  pose proof (widen_wf buf (Hbuffers _ _ Hbuf)) as Hwf.
  rewrite Forall_forall in Hwf.
  pose proof (Hwf _ (list_elem_of_lookup_2 _ _ _ Hvals)) as Hwidth.
  destruct (lookup_lt_is_Some_2 vals (c - offset mref)) as [v Hv]; [lia|].
  exists vals, v. rewrite Hvals. simpl. by rewrite Hv.
Qed.

(** X11. A buffer that holds one row per lane is broadcast: the column of
    a lane that alone covers it holds, in every row of the returned
    region, the sample of row [i] of the widened buffer. *)
Theorem single_row_lane_replicated memory_descriptors ro_sources buffers regions
    rname a mref key buf i c :
  NoDup memory_descriptors.*1 ->
  NoDup ro_sources.*1 ->
  buffers_wf buffers ->
  _extract_memory_regions memory_descriptors ro_sources buffers = Ok regions ->
  dict_get rname regions = Some a ->
  name mref = rname ->
  buffers !! key = Some buf ->
  sort_by_offset (lane_set rname key ro_sources) !! i = Some mref ->
  offset mref <= c < offset mref + (widen buf).1 ->
  Forall (fun item =>
            name item.1 = rname ->
            forall buf',
              buffers !! item.2 = Some buf' ->
              offset item.1 <= c < offset item.1 + (widen buf').1 ->
              item.1 = mref) ro_sources ->
  buffer_shape0 buf = length (lane_set rname key ro_sources) ->
  forall s,
    s < arr_shots a ->
    exists vals v,
      (widen buf).2 !! i = Some vals
      /\ vals !! (c - offset mref) = Some v
      /\ arr_cell a s c = Some (store (arr_dtype a) v).
Proof.
  intros Hnd Hro Hbuffers Hok Hget Hname Hbuf Hi Hcover Hunique Hrows s Hs.
  rewrite (covered_cell _ _ _ _ _ _ _ _ _ _ _ Hnd Hro Hbuffers Hok Hget Hname
             Hbuf Hi Hcover Hunique s Hs).
  pose proof (lookup_lt_Some _ _ _ Hi) as Hlt.
  rewrite sort_by_offset_length in Hlt.
  set (K := length (lane_set rname key ro_sources)) in *.
  pose proof (widen_rows buf) as Hlen. rewrite Hrows in Hlen.
  assert (length (widen buf).2 = 1 * K) as Hlen1 by lia.
  pose proof (every_nth_length _ K i _ Hlt Hlen1) as Hlane.
  pose proof (every_nth_lookup (widen buf).2 K ltac:(lia) i 0) as Hfirst.
  rewrite Nat.add_0_r in Hfirst.
  destruct (every_nth i K (widen buf).2) as [|vals [|]] eqn:Hsrc; try done.
  simpl in Hfirst.
  assert (broadcast_row (arr_shots a) [vals] s = Some vals) as ->.
  { unfold broadcast_row. case_decide as Hone; [|done].
    simpl in Hone. by replace s with 0 by lia. }
  pose proof (widen_wf buf (Hbuffers _ _ Hbuf)) as Hwf.
  rewrite Forall_forall in Hwf.
  pose proof (Hwf vals (list_elem_of_lookup_2 _ i _ (eq_sym Hfirst))) as Hwidth.
  destruct (lookup_lt_is_Some_2 vals (c - offset mref)) as [v Hv]; [lia|].
  exists vals, v. simpl. by rewrite Hv.
Qed.

Lemma assign_columns_Ok_rows a start src a' :
  assign_columns a start src = Ok a' ->
  length src = arr_shots a \/ length src = 1.
Proof.
  unfold assign_columns. case_decide; [by left|].
  destruct src as [|vals [|]]; try done. by right.
Qed.

Lemma place_lane_sets_each buffers rname region_width sets :
  forall a a',
    place_lane_sets buffers rname region_width sets a = Ok a' ->
    Forall (fun item =>
              exists a1 a2,
                same_shape a a1
                /\ place_lane_set buffers rname region_width a1 item = Ok a2) sets.
Proof.
  induction sets as [|item rest IH]; simpl; intros a a'.
  - constructor.
  - intros (a1 & H1 & H2)%bind_Ok_inv. constructor.
    + exists a, a1. split; [apply same_shape_refl | done].
    + pose proof (place_lane_set_shape _ _ _ _ _ _ H1) as Hshape.
      eapply Forall_impl; [by eapply IH|].
      intros item' (b1 & b2 & Hb & Hplace). exists b1, b2. split; [|done].
      by eapply same_shape_trans.
Qed.

(** X9. A buffer that disagrees with the inferred shot count is not
    silently accepted: when the buffer of a lane set of a declared region
    holds [n'] rows per lane with [n'] neither the inferred number of
    shots nor 1, the call returns no map. *)
Theorem shot_count_mismatch_raises memory_descriptors ro_sources buffers
    mref key spec buf num_shots n' :
  infer_num_shots (group_sources memory_descriptors ro_sources) buffers
  = Ok num_shots ->
  (mref, key) ∈ ro_sources ->
  dict_get (name mref) memory_descriptors = Some spec ->
  buffers !! key = Some buf ->
  buffer_shape0 buf = n' * length (lane_set (name mref) key ro_sources) ->
  n' <> num_shots ->
  n' <> 1 ->
  is_ok (_extract_memory_regions memory_descriptors ro_sources buffers) = false.
Proof.
  intros Hinfer Hin Hspec Hbuf Hrows Hn Hone.
  apply is_ok_false. intros regions Hok.
  unfold _extract_memory_regions in Hok. rewrite Hinfer in Hok. simpl in Hok.
  apply assemble_regions_each in Hok. rewrite Forall_forall in Hok.
  pose proof (group_sources_lookup _ _ ro_sources _ Hspec) as Hget.
  apply dict_get_Some_elem, Hok in Hget. simpl in Hget.
  destruct (assemble_region memory_descriptors buffers num_shots (name mref)
              (lane_sets_of (name mref) ro_sources)) as [a|] eqn:Ha; [|done].
  clear Hget. unfold assemble_region in Ha. rewrite Hspec in Ha.
  apply bind_Ok_inv in Ha as (a0 & Halloc & Hplace).
  apply alloc_shots in Halloc.
  apply place_lane_sets_each in Hplace. rewrite Forall_forall in Hplace.
  set (mref_list := lane_set (name mref) key ro_sources) in *.
  assert (mref ∈ mref_list) as Hmref by (by apply elem_of_lane_set).
  assert ((key, mref_list) ∈ lane_sets_of (name mref) ro_sources) as Hentry.
  { apply dict_get_Some_elem. rewrite lane_sets_of_lookup. fold mref_list.
    destruct mref_list; [by apply elem_of_nil in Hmref | done]. }
  destruct (Hplace _ Hentry) as (a1 & a2 & (Hs1 & _ & _) & Hset).
  unfold place_lane_set in Hset. unfold lookup_buffer in Hset.
  rewrite Hbuf in Hset. simpl in Hset.
  pose proof (widen_rows buf) as Hlen.
  destruct (widen buf) as [width rows]. simpl in Hlen.
  pose proof (sort_by_offset_length mref_list) as Hsorted.
  destruct (sort_by_offset mref_list) as [|m0 rest].
  { destruct mref_list; [by apply elem_of_nil in Hmref | done]. }
  simpl in Hset. apply bind_Ok_inv in Hset as (a3 & Hlane & _).
  unfold place_lane in Hlane. case_decide; [done|].
  apply assign_columns_Ok_rows in Hlane.
  rewrite (every_nth_length rows (length mref_list) 0 n') in Hlane;
    [| rewrite <- Hsorted; simpl; lia | lia].
  lia.
Qed.
End Written.

(** * Where the exceptions come from *)

Lemma bind_Raise_inv {A B} (m : result A) (f : A -> result B) (e : exn) :
  m ≫= f = Raise e -> m = Raise e \/ exists a, m = Ok a /\ f a = Raise e.
Proof.
  destruct m as [a|e']; intros Heq.
  - right. exists a. split; [reflexivity | exact Heq].
  - left. simpl in Heq. by injection Heq as ->.
Qed.

Section Causes.
Context `{FloatModel}.

Lemma assign_columns_Raise a start src e :
  assign_columns a start src = Raise e ->
  e = ValueError (CouldNotBroadcast (length src) (arr_shots a))
  /\ length src <> arr_shots a /\ length src <> 1.
Proof.
  unfold assign_columns. case_decide as Hlen; [done|].
  destruct src as [|vals [|]]; try done; intros [= <-]; by repeat split.
Qed.

Lemma place_lanes_Raise rname region_width num_lanes width rows lanes e :
  forall i a,
    place_lanes rname region_width num_lanes width rows i lanes a = Raise e ->
    exists j mref a1,
      lanes !! j = Some mref /\ same_shape a a1
      /\ place_lane rname region_width num_lanes width rows a1 (i + j) mref
         = Raise e.
Proof.
  induction lanes as [|mref rest IH]; simpl; intros i a; [done|].
  intros [Hfirst|(a1 & H1 & Hrest)]%bind_Raise_inv.
  - exists 0, mref, a. rewrite Nat.add_0_r. by split; [|split; [apply same_shape_refl|]].
  - destruct (IH _ _ Hrest) as (j & m & a2 & Hj & Hshape & Hlane).
    exists (S j), m, a2. split; [done|]. split.
    + eapply same_shape_trans; [by eapply place_lane_shape | done].
    + by replace (i + S j) with (S i + j) by lia.
Qed.

Lemma place_lane_sets_Raise buffers rname region_width sets e :
  forall a,
    place_lane_sets buffers rname region_width sets a = Raise e ->
    exists item a1,
      item ∈ sets /\ same_shape a a1
      /\ place_lane_set buffers rname region_width a1 item = Raise e.
Proof.
  induction sets as [|item rest IH]; simpl; intros a; [done|].
  intros [Hfirst|(a1 & H1 & Hrest)]%bind_Raise_inv.
  - exists item, a. split; [by left|]. by split; [apply same_shape_refl|].
  - destruct (IH _ Hrest) as (item' & a2 & Hin & Hshape & Hset).
    exists item', a2. split; [by right|]. split; [|done].
    eapply same_shape_trans; [by eapply place_lane_set_shape | done].
Qed.

Lemma assemble_regions_Raise memory_descriptors buffers num_shots sources e :
  forall regions,
    assemble_regions memory_descriptors buffers num_shots sources regions
    = Raise e ->
    exists mref_name mref_dict,
      (mref_name, mref_dict) ∈ sources
      /\ assemble_region memory_descriptors buffers num_shots mref_name mref_dict
         = Raise e.
Proof.
  induction sources as [|[mref_name mref_dict] rest IH]; simpl; intros regions;
    [done|].
  intros [Hfirst|(a & _ & Hrest)]%bind_Raise_inv.
  - exists mref_name, mref_dict. split; [by left | done].
  - destruct (IH _ Hrest) as (n & d & Hin & Hraise).
    exists n, d. split; [by right | done].
Qed.

(** Every exception of the call goes back to the arguments. *)
Lemma extract_Raise_cause memory_descriptors ro_sources buffers e :
  NoDup memory_descriptors.*1 ->
  _extract_memory_regions memory_descriptors ro_sources buffers = Raise e ->
  exception_cause memory_descriptors ro_sources buffers e.
Proof.
  intros Hnd. unfold _extract_memory_regions.
  intros [Hinfer|(num_shots & Hinfer & Hloop)]%bind_Raise_inv.
  - (* shot-count inference *)
    destruct memory_descriptors as [|[rname spec] rest].
    { rewrite infer_num_shots_empty in Hinfer. injection Hinfer as <-. by left. }
    rewrite infer_num_shots_head in Hinfer.
    destruct (lane_sets_of rname ro_sources) as [|[key mref_list] lane_sets] eqn:Hl.
    + injection Hinfer as <-. right. exists rname, spec, rest. split; [done|].
      apply Forall_forall. intros [m k] Hin Hname. simpl in Hname.
      destruct (lane_sets_of_complete rname k m ro_sources Hin Hname)
        as (l & Hget & _).
      by rewrite Hl in Hget.
    + unfold lookup_buffer in Hinfer.
      destruct (buffers !! key) as [buf|] eqn:Hbuf; [done|].
      injection Hinfer as <-.
      assert ((key, mref_list) ∈ lane_sets_of rname ro_sources) as Hentry
        by (rewrite Hl; by left).
      apply lane_sets_of_entry in Hentry as [-> Hne].
      destruct (lane_set rname key ro_sources) as [|m l] eqn:Hset; [done|].
      assert (m ∈ lane_set rname key ro_sources) as [Hin Hname]%elem_of_lane_set
        by (rewrite Hset; by left).
      exists m. split; [done|]. split; [|done].
      rewrite Hname. simpl. rewrite decide_True by done. by eexists.
  - (* the loop over the regions *)
    apply assemble_regions_Raise in Hloop as (rname & mref_dict & Hentry & Hraise).
    assert (is_Some (dict_get rname memory_descriptors)) as [spec Hspec].
    { destruct (dict_get rname memory_descriptors) eqn:Hget; [by eexists|].
      apply dict_get_None in Hget.
      rewrite <- (group_sources_keys _ ro_sources) in Hget.
      exfalso. apply Hget, list_elem_of_fmap. by exists (rname, mref_dict). }
    assert (mref_dict = lane_sets_of rname ro_sources) as ->.
    { pose proof (group_sources_lookup rname _ ro_sources _ Hspec) as Hget.
      apply dict_get_NoDup in Hentry; [congruence|].
      by rewrite group_sources_keys. }
    unfold assemble_region in Hraise. rewrite Hspec in Hraise.
    apply bind_Raise_inv in Hraise as [Halloc|(a0 & Halloc & Hplace)].
    { unfold alloc in Halloc.
      destruct (dict_get (ParameterSpec.type spec) dtype_table) eqn:Hty; [done|].
      injection Halloc as <-. exists rname, spec.
      split; [done|]. split; [done|]. by apply dtype_table_None. }
    apply alloc_shots in Halloc.
    apply place_lane_sets_Raise in Hplace
      as ([key mref_list] & a1 & Hset & (Hs1 & _ & _) & Hplace).
    apply lane_sets_of_entry in Hset as [-> Hne].
    assert (forall m, m ∈ sort_by_offset (lane_set rname key ro_sources) ->
                      (m, key) ∈ ro_sources /\ name m = rname) as Hlanes.
    { intros m. rewrite sort_by_offset_perm. apply elem_of_lane_set. }
    unfold place_lane_set, lookup_buffer in Hplace.
    destruct (buffers !! key) as [buf|] eqn:Hbuf; simpl in Hplace.
    2:{ injection Hplace as <-.
        destruct (sort_by_offset (lane_set rname key ro_sources)) as [|m l] eqn:Hsort.
        { apply (f_equal length) in Hsort. rewrite sort_by_offset_length in Hsort.
          by destruct (lane_set rname key ro_sources). }
        destruct (Hlanes m ltac:(by left)) as [Hin Hname].
        exists m. rewrite Hname, Hspec. by repeat split. }
    destruct (widen buf) as [width rows] eqn:Hwiden.
    apply place_lanes_Raise in Hplace as (j & m & a2 & Hj & (Hs2 & _ & _) & Hlane).
    destruct (Hlanes m (list_elem_of_lookup_2 _ _ _ Hj)) as [Hin Hname].
    unfold place_lane in Hlane. case_decide as Hover.
    + injection Hlane as <-. exists m, key, spec, buf.
      rewrite Hwiden. by repeat split.
    + apply assign_columns_Raise in Hlane as (-> & Hrows & Hone).
      exists m, key, buf, j. rewrite Hname, Hspec, Hwiden.
      replace (arr_shots a2) with num_shots in * by congruence.
      by repeat split.
Qed.

(** X10. Every exception of [_extract_memory_regions] has its cause in
    the arguments. [StopIteration]: no region is declared, or no readout
    source names the first one. [KeyError]: a readout source of a declared
    region reads a key that is not among the buffers. The [ValueError] of
    line 71: a declared region has that type, and it is none of the four
    tags. The [ValueError] of line 109: a readout source of the named
    region starts at the reported offset and, with the width of its
    buffer, ends at the reported end past the reported declared length.
    numpy's broadcast error: a readout source of a declared region is the
    lane of rank [i] by offset in its lane set of [K] references, and the
    rows [i], [i + K], [i + 2 K], ... of its buffer, whose number the
    error reports, are neither as many as the inferred shots, which it
    reports too, nor one. *)
Theorem raised_exceptions_have_causes memory_descriptors ro_sources buffers e :
  NoDup memory_descriptors.*1 ->
  _extract_memory_regions memory_descriptors ro_sources buffers = Raise e ->
  match e with
  | StopIteration =>
      memory_descriptors = []
      \/ exists rname spec rest,
          memory_descriptors = (rname, spec) :: rest
          /\ Forall (fun item => name item.1 <> rname) ro_sources
  | KeyError key =>
      exists mref,
        (mref, key) ∈ ro_sources
        /\ is_Some (dict_get (name mref) memory_descriptors)
        /\ buffers !! key = None
  | ValueError (UnexpectedMemoryType ty) =>
      exists rname spec,
        dict_get rname memory_descriptors = Some spec
        /\ ParameterSpec.type spec = ty
        /\ ty ∉ ["BIT"; "INTEGER"; "REAL"; "FLOAT"]
  | ValueError (AttemptedToFill rname start stop region_width) =>
      exists mref key spec buf,
        (mref, key) ∈ ro_sources
        /\ name mref = rname /\ offset mref = start
        /\ dict_get rname memory_descriptors = Some spec
        /\ ParameterSpec.length spec = region_width
        /\ buffers !! key = Some buf
        /\ stop = start + (widen buf).1
        /\ region_width < stop
  | ValueError (CouldNotBroadcast src_rows dst_rows) =>
      exists mref key buf i,
        (mref, key) ∈ ro_sources
        /\ is_Some (dict_get (name mref) memory_descriptors)
        /\ buffers !! key = Some buf
        /\ sort_by_offset (lane_set (name mref) key ro_sources) !! i = Some mref
        /\ src_rows
           = length (every_nth i (length (lane_set (name mref) key ro_sources))
                       (widen buf).2)
        /\ infer_num_shots (group_sources memory_descriptors ro_sources) buffers
           = Ok dst_rows
        /\ src_rows <> dst_rows /\ src_rows <> 1
  end.
Proof.
  intros Hnd Hraise.
  pose proof (extract_Raise_cause _ _ _ _ Hnd Hraise) as Hcause.
  destruct e as [| key | [ty | rname start stop region_width | src_rows dst_rows]];
    exact Hcause.
Qed.
End Causes.

(** * The order in which the steps of a call fail

    Shot-count inference comes first, then the regions in declaration
    order: for each the allocation, then its lane sets in the order in
    which their buffer keys first occur, for each the lookup of the
    buffer and then the lanes by offset, with the check of line 107
    before the assignment of line 113. The call ends with the exception
    of the first step that fails. *)

Lemma dict_by_keys {V} (f : string -> V) (d : dict V) :
  (forall k v, (k, v) ∈ d -> v = f k) -> d = (fun k => (k, f k)) <$> d.*1.
Proof.
  induction d as [|[k v] d IH]; simpl; intros Hd; [done|].
  f_equal.
  - f_equal. apply Hd. by left.
  - apply IH. intros k' v' Hin. apply Hd. by right.
Qed.

(** With distinct declared names, [sources] pairs each declared name, in
    declaration order, with its lane sets. *)
Lemma group_sources_map memory_descriptors ro_sources :
  NoDup memory_descriptors.*1 ->
  group_sources memory_descriptors ro_sources
  = (fun d => (d.1, lane_sets_of d.1 ro_sources)) <$> memory_descriptors.
Proof.
  intros Hnd.
  transitivity ((fun k => (k, lane_sets_of k ro_sources))
                  <$> (group_sources memory_descriptors ro_sources).*1).
  - apply dict_by_keys. intros k v Hin.
    assert (k ∈ memory_descriptors.*1) as Hk.
    { rewrite <- (group_sources_keys _ ro_sources).
      apply list_elem_of_fmap. by exists (k, v). }
    destruct (dict_get k memory_descriptors) as [spec|] eqn:Hget.
    2:{ by apply dict_get_None in Hget. }
    pose proof (group_sources_lookup k _ ro_sources _ Hget) as Hl.
    apply dict_get_NoDup in Hin; [congruence | by rewrite group_sources_keys].
  - rewrite group_sources_keys, <- list_fmap_compose. done.
Qed.

Section Precedence.
Context `{FloatModel}.

Lemma place_lanes_first_failure rname region_width num_lanes width rows
    lanes_before mref lanes_after e :
  forall i a a',
    place_lanes rname region_width num_lanes width rows i lanes_before a = Ok a' ->
    place_lane rname region_width num_lanes width rows a'
      (i + length lanes_before) mref = Raise e ->
    place_lanes rname region_width num_lanes width rows i
      (lanes_before ++ mref :: lanes_after) a = Raise e.
Proof.
  induction lanes_before as [|m rest IH]; simpl; intros i a a'.
  - intros [= <-]. rewrite Nat.add_0_r. by intros ->.
  - intros (a1 & H1 & H2)%bind_Ok_inv Hlane. rewrite H1. simpl.
    apply (IH _ _ _ H2).
    by replace (S i + length rest) with (i + S (length rest)) by lia.
Qed.

Lemma place_lane_sets_first_failure buffers rname region_width
    sets_before item sets_after e :
  forall a a',
    place_lane_sets buffers rname region_width sets_before a = Ok a' ->
    place_lane_set buffers rname region_width a' item = Raise e ->
    place_lane_sets buffers rname region_width
      (sets_before ++ item :: sets_after) a = Raise e.
Proof.
  induction sets_before as [|item' rest IH]; simpl; intros a a'.
  - intros [= <-]. by intros ->.
  - intros (a1 & H1 & H2)%bind_Ok_inv Hset. rewrite H1. simpl.
    by apply (IH _ _ H2).
Qed.

Lemma assemble_regions_first_failure memory_descriptors buffers num_shots
    before mref_name mref_dict after e :
  forall regions,
    Forall (fun item => is_ok (assemble_region memory_descriptors buffers num_shots
                                 item.1 item.2) = true) before ->
    assemble_region memory_descriptors buffers num_shots mref_name mref_dict
    = Raise e ->
    assemble_regions memory_descriptors buffers num_shots
      (before ++ (mref_name, mref_dict) :: after) regions = Raise e.
Proof.
  induction before as [|[n d] rest IH]; simpl; intros regions Hbefore Hraise.
  - by rewrite Hraise.
  - apply Forall_cons in Hbefore as [Hfirst Hrest]. simpl in Hfirst.
    destruct (assemble_region memory_descriptors buffers num_shots n d) as [a|];
      [|done].
    simpl. by apply IH.
Qed.

(** The region at which the loop of line 93 fails first ends the call. *)
Lemma extract_first_failure memory_descriptors ro_sources buffers num_shots
    before rname spec after e :
  NoDup memory_descriptors.*1 ->
  infer_num_shots (group_sources memory_descriptors ro_sources) buffers
  = Ok num_shots ->
  memory_descriptors = before ++ (rname, spec) :: after ->
  Forall (fun d => is_ok (assemble_region memory_descriptors buffers num_shots
                            d.1 (lane_sets_of d.1 ro_sources)) = true) before ->
  assemble_region memory_descriptors buffers num_shots rname
    (lane_sets_of rname ro_sources) = Raise e ->
  _extract_memory_regions memory_descriptors ro_sources buffers = Raise e.
Proof.
  intros Hnd Hinfer Hsplit Hbefore Hraise.
  unfold _extract_memory_regions. rewrite Hinfer. simpl.
  rewrite (group_sources_map _ _ Hnd).
  rewrite Hsplit at 2. rewrite fmap_app, fmap_cons.
  apply assemble_regions_first_failure; [|done].
  by rewrite Forall_fmap.
Qed.

Lemma declared_middle (memory_descriptors : dict ParameterSpec.t)
    before rname spec after :
  NoDup memory_descriptors.*1 ->
  memory_descriptors = before ++ (rname, spec) :: after ->
  dict_get rname memory_descriptors = Some spec.
Proof.
  intros Hnd ->. apply dict_get_NoDup; [done|].
  apply elem_of_app. right. by left.
Qed.

(** No call with an overflowing readout source returns. *)
Lemma extract_overflow_fails memory_descriptors ro_sources buffers item :
  item ∈ ro_sources ->
  lane_overflows memory_descriptors buffers item ->
  is_ok (_extract_memory_regions memory_descriptors ro_sources buffers) = false.
Proof.
  destruct item as [mref key]. intros Hin (spec & buf & Hspec & Hbuf & Hover).
  simpl in *.
  apply is_ok_false. intros regions Hok.
  destruct (extract_assembles_declared _ _ _ _ _ _ Hok Hspec)
    as (num_shots & a & Ha).
  unfold assemble_region in Ha. rewrite Hspec in Ha.
  apply bind_Ok_inv in Ha as (a0 & _ & Hplace).
  apply place_lane_sets_fit in Hplace. rewrite Forall_forall in Hplace.
  destruct (lane_sets_of_complete (name mref) key mref ro_sources Hin eq_refl)
    as (mref_list & Hget & Hmref).
  apply dict_get_Some_elem, Hplace in Hget as (buf' & Hbuf' & Hfit).
  simpl in Hbuf', Hfit. rewrite Hbuf in Hbuf'. injection Hbuf' as <-.
  rewrite Forall_forall in Hfit. specialize (Hfit _ Hmref). lia.
Qed.

(** No call with a declared type outside the four tags returns. *)
Lemma extract_unsupported_fails memory_descriptors ro_sources buffers rname spec :
  dict_get rname memory_descriptors = Some spec ->
  ParameterSpec.type spec ∉ ["BIT"; "INTEGER"; "REAL"; "FLOAT"] ->
  is_ok (_extract_memory_regions memory_descriptors ro_sources buffers) = false.
Proof.
  intros Hspec Hty%dtype_table_None.
  apply is_ok_false. intros regions Hok.
  destruct (extract_assembles_declared _ _ _ _ _ _ Hok Hspec)
    as (num_shots & a & Ha).
  unfold assemble_region in Ha. rewrite Hspec in Ha.
  apply bind_Ok_inv in Ha as (a0 & Halloc & _).
  unfold alloc in Halloc. by rewrite Hty in Halloc.
Qed.

Lemma is_ok_false_Raise {A} (r : result A) :
  is_ok r = false -> exists e, r = Raise e.
Proof. destruct r as [a|e]; [done | by exists e]. Qed.

(** When the shot count is inferred, [StopIteration] is not raised. *)
Lemma inferred_no_StopIteration memory_descriptors ro_sources buffers num_shots :
  infer_num_shots (group_sources memory_descriptors ro_sources) buffers
  = Ok num_shots ->
  ~ exception_cause memory_descriptors ro_sources buffers StopIteration.
Proof.
  intros Hinfer [->|(rname & spec & rest & -> & Hunused)].
  - by rewrite infer_num_shots_empty in Hinfer.
  - by rewrite infer_num_shots_head, lane_sets_of_unused in Hinfer.
Qed.

(** When every buffer is there, no [KeyError] is raised. *)
Lemma fit_no_KeyError memory_descriptors ro_sources buffers num_shots key :
  buffers_fit memory_descriptors ro_sources buffers num_shots ->
  ~ exception_cause memory_descriptors ro_sources buffers (KeyError key).
Proof.
  intros Hfit (mref & Hin & Hdecl & Hnone).
  unfold buffers_fit in Hfit. rewrite Forall_forall in Hfit.
  destruct (Hfit _ Hin Hdecl) as (buf & Hbuf & _). simpl in Hbuf. congruence.
Qed.

(** When every buffer has the inferred number of rows for each lane,
    numpy's broadcast error is not raised. *)
Lemma fit_no_CouldNotBroadcast memory_descriptors ro_sources buffers num_shots
    src_rows dst_rows :
  infer_num_shots (group_sources memory_descriptors ro_sources) buffers
  = Ok num_shots ->
  buffers_fit memory_descriptors ro_sources buffers num_shots ->
  ~ exception_cause memory_descriptors ro_sources buffers
      (ValueError (CouldNotBroadcast src_rows dst_rows)).
Proof.
  intros Hinfer Hfit
    (mref & key & buf & i & Hin & Hdecl & Hbuf & Hi & Hsrc & Hdst & Hne & _).
  unfold buffers_fit in Hfit. rewrite Forall_forall in Hfit.
  destruct (Hfit _ Hin Hdecl) as (buf' & Hbuf' & Hrows). simpl in Hbuf', Hrows.
  rewrite Hbuf in Hbuf'. injection Hbuf' as <-.
  apply lookup_lt_Some in Hi. rewrite sort_by_offset_length in Hi.
  rewrite (every_nth_length _ _ _ num_shots) in Hsrc;
    [|done | by rewrite widen_rows].
  congruence.
Qed.

(** C3, as the code has it. The check of line 107 raises the
    [ValueError] of line 109, which carries the region name, the attempted
    range and the declared width, for every lane whose columns would end
    past the declared length of its region, and no call with such a
    readout source returns a region map. The call ends with the exception
    of the first step that fails: it raises this error for the lane when
    the shot count is inferred, the regions declared before the lane's
    region are assembled, the region is allocated, its lane sets before
    the lane's are placed, the lane's buffer is there and the lanes of
    smaller offset are placed. So it is for some overflowing readout
    source whenever the shot count is inferred, every declared type is
    one of the four tags and every buffer read is there with the inferred
    number of rows for each lane. A lane of offset 6 and width 2 against a
    declared length of 7 raises the error with the range 6 to 8. *)
Theorem region_overflow_detected :
  (forall mref_name region_width num_lanes width buf region i mref,
      region_width < offset mref + width ->
      place_lane mref_name region_width num_lanes width buf region i mref
      = Raise (ValueError (AttemptedToFill mref_name (offset mref)
                             (offset mref + width) region_width)))
  /\ (forall memory_descriptors ro_sources buffers mref key spec buf,
        (mref, key) ∈ ro_sources ->
        dict_get (name mref) memory_descriptors = Some spec ->
        buffers !! key = Some buf ->
        ParameterSpec.length spec < offset mref + (widen buf).1 ->
        is_ok (_extract_memory_regions memory_descriptors ro_sources buffers)
        = false)
  /\ (forall memory_descriptors ro_sources buffers num_shots
             before rname spec after region0
             sets_before key mref_list sets_after region1 buf
             lanes_before mref lanes_after region2,
        NoDup memory_descriptors.*1 ->
        infer_num_shots (group_sources memory_descriptors ro_sources) buffers
        = Ok num_shots ->
        memory_descriptors = before ++ (rname, spec) :: after ->
        Forall (fun d =>
                  is_ok (assemble_region memory_descriptors buffers num_shots
                           d.1 (lane_sets_of d.1 ro_sources)) = true) before ->
        alloc spec num_shots = Ok region0 ->
        lane_sets_of rname ro_sources
        = sets_before ++ (key, mref_list) :: sets_after ->
        place_lane_sets buffers rname (ParameterSpec.length spec)
          sets_before region0 = Ok region1 ->
        buffers !! key = Some buf ->
        sort_by_offset mref_list = lanes_before ++ mref :: lanes_after ->
        place_lanes rname (ParameterSpec.length spec) (length mref_list)
          (widen buf).1 (widen buf).2 0 lanes_before region1 = Ok region2 ->
        ParameterSpec.length spec < offset mref + (widen buf).1 ->
        _extract_memory_regions memory_descriptors ro_sources buffers
        = Raise (ValueError (AttemptedToFill rname (offset mref)
                               (offset mref + (widen buf).1)
                               (ParameterSpec.length spec))))
  /\ (forall memory_descriptors ro_sources buffers num_shots,
        NoDup memory_descriptors.*1 ->
        infer_num_shots (group_sources memory_descriptors ro_sources) buffers
        = Ok num_shots ->
        Forall (fun d => ParameterSpec.type d.2
                         ∈ ["BIT"; "INTEGER"; "REAL"; "FLOAT"])
               memory_descriptors ->
        buffers_fit memory_descriptors ro_sources buffers num_shots ->
        Exists (lane_overflows memory_descriptors buffers) ro_sources ->
        exists mref key spec buf,
          (mref, key) ∈ ro_sources
          /\ dict_get (name mref) memory_descriptors = Some spec
          /\ buffers !! key = Some buf
          /\ ParameterSpec.length spec < offset mref + (widen buf).1
          /\ _extract_memory_regions memory_descriptors ro_sources buffers
             = Raise (ValueError (AttemptedToFill (name mref) (offset mref)
                                    (offset mref + (widen buf).1)
                                    (ParameterSpec.length spec))))
  /\ (forall mref_name num_lanes buf region i,
        place_lane mref_name 7 num_lanes 2 buf region i (MRef mref_name 6)
        = Raise (ValueError (AttemptedToFill mref_name 6 8 7))).
Proof.
  split; [|split; [|split; [|split]]].
  - intros. by apply place_lane_overflow.
  - intros memory_descriptors ro_sources buffers mref key spec buf
      Hin Hspec Hbuf Hover.
    apply (extract_overflow_fails _ _ _ (mref, key)); [done|].
    by exists spec, buf.
  - intros memory_descriptors ro_sources buffers num_shots
      before rname spec after region0
      sets_before key mref_list sets_after region1 buf
      lanes_before mref lanes_after region2
      Hnd Hinfer Hsplit Hbefore Halloc Hsets Hplaced Hbuf Hsort Hlanes Hover.
    apply (extract_first_failure _ _ _ num_shots before rname spec after);
      try done.
    unfold assemble_region.
    rewrite (declared_middle _ _ _ _ _ Hnd Hsplit), Halloc. simpl.
    rewrite Hsets.
    apply (place_lane_sets_first_failure _ _ _ _ _ _ _ _ _ Hplaced).
    unfold place_lane_set, lookup_buffer. rewrite Hbuf. simpl.
    destruct (widen buf) as [width rows]. simpl in *. rewrite Hsort.
    apply (place_lanes_first_failure _ _ _ _ _ _ _ _ _ _ _ _ Hlanes).
    by apply place_lane_overflow.
  - intros memory_descriptors ro_sources buffers num_shots
      Hnd Hinfer Htypes Hfit Hover.
    apply Exists_exists in Hover as (item & Hitem & Hover).
    destruct (is_ok_false_Raise _ (extract_overflow_fails _ _ _ _ Hitem Hover))
      as [e He].
    pose proof (extract_Raise_cause _ _ _ _ Hnd He) as Hcause.
    destruct e as [| k | [ty | rname start stop region_width | src_rows dst_rows]].
    + by destruct (inferred_no_StopIteration _ _ _ _ Hinfer).
    + by destruct (fit_no_KeyError _ _ _ _ k Hfit).
    + destruct Hcause as (rname & spec & Hspec & Hty & Hbad).
      apply dict_get_Some_elem in Hspec. rewrite Forall_forall in Htypes.
      apply Htypes in Hspec. simpl in Hspec. by rewrite Hty in Hspec.
    + destruct Hcause
        as (mref & key & spec & buf & Hin & Hn & Ho & Hspec & Hlen & Hbuf & Hstop & Hlt).
      exists mref, key, spec, buf. subst. by repeat split.
    + by destruct (fit_no_CouldNotBroadcast _ _ _ _ src_rows dst_rows Hinfer Hfit).
  - intros. by apply place_lane_overflow; simpl; lia.
Qed.

(** C6, as the code has it. [alloc] raises the [ValueError] of line 71
    for every declared type outside BIT, INTEGER, REAL and FLOAT, and no
    call with such a descriptor returns a region map, partial or not. The
    call ends with the exception of the first step that fails: it raises
    this error for the descriptor when the shot count is inferred and the
    regions declared before it are assembled. So it is for some declared
    type outside the four tags whenever the shot count is inferred, every
    buffer read is there with the inferred number of rows for each lane
    and no readout source overflows its region. For the four tags [alloc]
    returns an array of [num_shots] rows and the declared length as
    width, of element type int64 for BIT and INTEGER, float64 for REAL
    and FLOAT. *)
Theorem unsupported_element_type :
  (forall spec num_shots,
      ParameterSpec.type spec ∉ ["BIT"; "INTEGER"; "REAL"; "FLOAT"] ->
      alloc spec num_shots
      = Raise (ValueError (UnexpectedMemoryType (ParameterSpec.type spec))))
  /\ (forall memory_descriptors ro_sources buffers rname spec,
        dict_get rname memory_descriptors = Some spec ->
        ParameterSpec.type spec ∉ ["BIT"; "INTEGER"; "REAL"; "FLOAT"] ->
        is_ok (_extract_memory_regions memory_descriptors ro_sources buffers)
        = false)
  /\ (forall memory_descriptors ro_sources buffers num_shots
             before rname spec after,
        NoDup memory_descriptors.*1 ->
        infer_num_shots (group_sources memory_descriptors ro_sources) buffers
        = Ok num_shots ->
        memory_descriptors = before ++ (rname, spec) :: after ->
        Forall (fun d =>
                  is_ok (assemble_region memory_descriptors buffers num_shots
                           d.1 (lane_sets_of d.1 ro_sources)) = true) before ->
        ParameterSpec.type spec ∉ ["BIT"; "INTEGER"; "REAL"; "FLOAT"] ->
        _extract_memory_regions memory_descriptors ro_sources buffers
        = Raise (ValueError (UnexpectedMemoryType (ParameterSpec.type spec))))
  /\ (forall memory_descriptors ro_sources buffers num_shots rname spec,
        NoDup memory_descriptors.*1 ->
        infer_num_shots (group_sources memory_descriptors ro_sources) buffers
        = Ok num_shots ->
        buffers_fit memory_descriptors ro_sources buffers num_shots ->
        Forall (fun item => ~ lane_overflows memory_descriptors buffers item)
               ro_sources ->
        dict_get rname memory_descriptors = Some spec ->
        ParameterSpec.type spec ∉ ["BIT"; "INTEGER"; "REAL"; "FLOAT"] ->
        exists rname' spec',
          dict_get rname' memory_descriptors = Some spec'
          /\ (ParameterSpec.type spec' ∉ ["BIT"; "INTEGER"; "REAL"; "FLOAT"])
          /\ _extract_memory_regions memory_descriptors ro_sources buffers
             = Raise (ValueError (UnexpectedMemoryType (ParameterSpec.type spec'))))
  /\ (forall ty d len num_shots,
        (ty, d) ∈ [("BIT", int64); ("INTEGER", int64);
                   ("REAL", float64); ("FLOAT", float64)] ->
        exists a,
          alloc (ParameterSpec.mk ty len) num_shots = Ok a
          /\ arr_shots a = num_shots /\ arr_width a = len /\ arr_dtype a = d
          /\ ndarray_wf a).
Proof.
  split; [|split; [|split; [|split]]].
  - intros spec num_shots Hty%dtype_table_None. unfold alloc. by rewrite Hty.
  - intros memory_descriptors ro_sources buffers rname spec.
    apply extract_unsupported_fails.
  - intros memory_descriptors ro_sources buffers num_shots
      before rname spec after Hnd Hinfer Hsplit Hbefore Hty%dtype_table_None.
    apply (extract_first_failure _ _ _ num_shots before rname spec after);
      try done.
    unfold assemble_region.
    rewrite (declared_middle _ _ _ _ _ Hnd Hsplit).
    unfold alloc. by rewrite Hty.
  - intros memory_descriptors ro_sources buffers num_shots rname spec
      Hnd Hinfer Hfit Hnone Hspec Hty.
    destruct (is_ok_false_Raise _
                (extract_unsupported_fails _ ro_sources buffers _ _ Hspec Hty))
      as [e He].
    pose proof (extract_Raise_cause _ _ _ _ Hnd He) as Hcause.
    destruct e as [| k | [ty | rn start stop region_width | src_rows dst_rows]].
    + by destruct (inferred_no_StopIteration _ _ _ _ Hinfer).
    + by destruct (fit_no_KeyError _ _ _ _ k Hfit).
    + destruct Hcause as (rname' & spec' & Hspec' & <- & Hbad).
      by exists rname', spec'.
    + destruct Hcause
        as (mref & key & spec' & buf & Hin & Hn & Ho & Hspec' & Hlen & Hbuf & Hstop & Hlt).
      rewrite Forall_forall in Hnone. destruct (Hnone _ Hin).
      exists spec', buf. simpl. subst. by repeat split.
    + by destruct (fit_no_CouldNotBroadcast _ _ _ _ src_rows dst_rows Hinfer Hfit).
  - intros ty d len num_shots Hin.
    assert (dict_get ty dtype_table = Some d) as Hd.
    { repeat (apply elem_of_cons in Hin as [[= -> ->]|Hin]; [done|]).
      by apply elem_of_nil in Hin. }
    destruct (alloc (ParameterSpec.mk ty len) num_shots) as [a|e] eqn:Ha.
    + exists a. pose proof (alloc_shots _ _ _ Ha). pose proof (alloc_wf _ _ _ Ha).
      apply alloc_Ok in Ha as (Hd' & Hw & _). simpl in *.
      repeat split; try done. congruence.
    + unfold alloc in Ha. cbn [ParameterSpec.type] in Ha. by rewrite Hd in Ha.
Qed.
End Precedence.

(** * Readout through [get_result] *)

Lemma every_nth_all {A} (l : list A) : every_nth 0 1 l = l.
Proof. induction l as [|x l IH]; simpl; [done | by rewrite IH]. Qed.

Section Readout.
Context `{FloatModel} {payload : Type}.
Variable to_complex32 : payload -> list complex.
Variable to_i32 : payload -> list Z.

Lemma decoded_buffers_wf (results_buffers : gmap string (ExecutionResult payload)) :
  buffers_wf (decode_buffer to_complex32 to_i32 <$> results_buffers).
Proof.
  intros key buf. rewrite lookup_fmap.
  destruct (results_buffers !! key) as [raw|]; [|done].
  intros [= <-]. unfold decode_buffer. by repeat case_decide.
Qed.

Lemma get_result_memory_Ok_extract memory_descriptors ro_sources
    (results_buffers : gmap string (ExecutionResult payload)) key raw regions :
  results_buffers !! key = Some raw ->
  get_result_memory to_complex32 to_i32 memory_descriptors ro_sources
    results_buffers = Ok regions ->
  _extract_memory_regions memory_descriptors ro_sources
    (decode_buffer to_complex32 to_i32 <$> results_buffers) = Ok regions.
Proof.
  intros Hraw. unfold get_result_memory. rewrite decide_True.
  2:{ apply map_size_non_empty_iff. rewrite fmap_empty_iff. intros ->.
      by rewrite lookup_empty in Hraw. }
  intros (extracted & Hextract & [= <-])%bind_Ok_inv.
  rewrite Hextract. f_equal. rewrite dict_rebuild; [done|]. simpl.
  unfold _extract_memory_regions in Hextract.
  apply bind_Ok_inv in Hextract as (num_shots & _ & Hloop).
  eapply assemble_regions_keys_NoDup; [|exact Hloop]. constructor.
Qed.

(** X12. Readout of a measured slot. A slot of a region that alone reads
    a buffer tagged "integer", and shares its column with no other readout
    source of the region, where the buffer has one sample per shot: in the
    readout data of [get_result], row [s] of the column of the slot is
    sample [s] of the buffer, as the SDK's [to_i32] gives it, stored in the
    element type of the region. *)
Theorem integer_slot_readout memory_descriptors ro_sources
    (results_buffers : gmap string (ExecutionResult payload)) regions
    rname a mref key raw :
  NoDup memory_descriptors.*1 ->
  NoDup ro_sources.*1 ->
  get_result_memory to_complex32 to_i32 memory_descriptors ro_sources
    results_buffers = Ok regions ->
  dict_get rname regions = Some a ->
  lane_set rname key ro_sources = [mref] ->
  results_buffers !! key = Some raw ->
  dtype raw = "integer" ->
  Forall (fun item =>
            name item.1 = rname -> item.1 <> mref ->
            forall raw',
              results_buffers !! item.2 = Some raw' ->
              offset item.1
              + (widen (decode_buffer to_complex32 to_i32 raw')).1 <= offset mref
              \/ offset mref + 1 <= offset item.1) ro_sources ->
  length (to_i32 (data raw)) = arr_shots a ->
  forall s,
    s < arr_shots a ->
    exists z,
      to_i32 (data raw) !! s = Some z
      /\ arr_cell a s (offset mref) = Some (store (arr_dtype a) (SInt z)).
Proof.
  intros Hnd Hro Hresult Hget Hset Hraw Htag Halone Hlen s Hs.
  apply (get_result_memory_Ok_extract _ _ _ key raw _ Hraw) in Hresult.
  set (buffers := decode_buffer to_complex32 to_i32 <$> results_buffers) in *.
  set (buf := IntBuffer (Dim1 (to_i32 (data raw)))).
  assert (buffers !! key = Some buf) as Hbuf.
  { unfold buffers. rewrite lookup_fmap, Hraw. simpl. unfold decode_buffer.
    rewrite Htag. by rewrite decide_False, decide_True. }
  assert (mref ∈ lane_set rname key ro_sources) as [_ Hname]%elem_of_lane_set
    by (rewrite Hset; by left).
  rewrite (covered_cell memory_descriptors ro_sources buffers regions rname a
             mref key buf 0 (offset mref) Hnd Hro (decoded_buffers_wf _)
             Hresult Hget Hname Hbuf); [| by rewrite Hset | simpl; lia | | done].
  - rewrite Hset. simpl. rewrite every_nth_all.
    destruct (lookup_lt_is_Some_2 (to_i32 (data raw)) s) as [z Hz]; [lia|].
    exists z. split; [done|].
    unfold broadcast_row. rewrite decide_True by (by rewrite !length_fmap).
    rewrite !list_lookup_fmap, Hz. simpl. by rewrite Nat.sub_diag.
  - rewrite Forall_forall in Halone. apply Forall_forall.
    intros [m k] Hin Hm buf' Hbuf' Hcover. simpl in *.
    destruct (decide (m = mref)) as [->|Hne]; [done|]. exfalso.
    unfold buffers in Hbuf'. rewrite lookup_fmap in Hbuf'.
    destruct (results_buffers !! k) as [raw'|] eqn:Hraw'; [|done].
    injection Hbuf' as <-.
    destruct (Halone _ Hin Hm Hne raw' Hraw'); simpl in *; lia.
Qed.

(** X13. Readout of a captured slot. A reference that alone reads a buffer
    tagged "complex", and shares its two columns with no other readout
    source of the region, where the buffer has one sample per shot: in the
    readout data of [get_result], row [s] holds the real part of sample
    [s] in the column of the reference and its imaginary part in the next
    column. *)
Theorem complex_slot_readout memory_descriptors ro_sources
    (results_buffers : gmap string (ExecutionResult payload)) regions
    rname a mref key raw :
  NoDup memory_descriptors.*1 ->
  NoDup ro_sources.*1 ->
  get_result_memory to_complex32 to_i32 memory_descriptors ro_sources
    results_buffers = Ok regions ->
  dict_get rname regions = Some a ->
  lane_set rname key ro_sources = [mref] ->
  results_buffers !! key = Some raw ->
  dtype raw = "complex" ->
  Forall (fun item =>
            name item.1 = rname -> item.1 <> mref ->
            forall raw',
              results_buffers !! item.2 = Some raw' ->
              offset item.1
              + (widen (decode_buffer to_complex32 to_i32 raw')).1 <= offset mref
              \/ offset mref + 2 <= offset item.1) ro_sources ->
  length (to_complex32 (data raw)) = arr_shots a ->
  forall s,
    s < arr_shots a ->
    exists re im,
      to_complex32 (data raw) !! s = Some (re, im)
      /\ arr_cell a s (offset mref) = Some (store (arr_dtype a) (SReal re))
      /\ arr_cell a s (offset mref + 1) = Some (store (arr_dtype a) (SReal im)).
Proof.
  intros Hnd Hro Hresult Hget Hset Hraw Htag Halone Hlen s Hs.
  apply (get_result_memory_Ok_extract _ _ _ key raw _ Hraw) in Hresult.
  set (buffers := decode_buffer to_complex32 to_i32 <$> results_buffers) in *.
  set (buf := ComplexBuffer (Dim1 (to_complex32 (data raw)))).
  assert (buffers !! key = Some buf) as Hbuf.
  { unfold buffers. rewrite lookup_fmap, Hraw. simpl. unfold decode_buffer.
    rewrite Htag. by rewrite decide_True. }
  assert (mref ∈ lane_set rname key ro_sources) as [_ Hname]%elem_of_lane_set
    by (rewrite Hset; by left).
  assert (forall c,
             offset mref <= c < offset mref + 2 ->
             Forall (fun item : MemoryReference * string =>
                       name item.1 = rname ->
                       forall buf',
                         buffers !! item.2 = Some buf' ->
                         offset item.1 <= c < offset item.1 + (widen buf').1 ->
                         item.1 = mref) ro_sources) as Hunique.
  { intros c Hc. rewrite Forall_forall in Halone. apply Forall_forall.
    intros [m k] Hin Hm buf' Hbuf' Hcover. simpl in *.
    destruct (decide (m = mref)) as [->|Hne]; [done|]. exfalso.
    unfold buffers in Hbuf'. rewrite lookup_fmap in Hbuf'.
    destruct (results_buffers !! k) as [raw'|] eqn:Hraw'; [|done].
    injection Hbuf' as <-.
    destruct (Halone _ Hin Hm Hne raw' Hraw'); simpl in *; lia. }
  destruct (lookup_lt_is_Some_2 (to_complex32 (data raw)) s) as [[re im] Hz];
    [lia|].
  exists re, im. split; [done|].
  assert (forall c,
             offset mref <= c < offset mref + 2 ->
             arr_cell a s c
             = store (arr_dtype a) <$> [SReal re; SReal im] !! (c - offset mref))
    as Hcells.
  { intros c Hc.
    rewrite (covered_cell memory_descriptors ro_sources buffers regions rname a
               mref key buf 0 c Hnd Hro (decoded_buffers_wf _)
               Hresult Hget Hname Hbuf);
      [| by rewrite Hset | simpl; lia | by apply Hunique | done].
    rewrite Hset. simpl. rewrite every_nth_all.
    unfold broadcast_row. rewrite decide_True by (by rewrite !length_fmap).
    unfold complex in *. rewrite !list_lookup_fmap, Hz. done. }
  split.
  - rewrite Hcells by lia. by rewrite Nat.sub_diag.
  - rewrite Hcells by lia. by replace (offset mref + 1 - offset mref) with 1 by lia.
Qed.
End Readout.

(** * The further properties on concrete inputs *)

Section FurtherWitnesses.
#[local] Existing Instance Q_model.

Lemma buffers_q0_q1_wf : buffers_wf buffers_q0_q1.
Proof.
  intros key buf Hlookup. unfold buffers_q0_q1 in Hlookup.
  apply lookup_insert_Some in Hlookup as [[_ <-]|[_ [_ <-]%lookup_singleton_Some]];
    exact I.
Defined.

Lemma missing_buffer_raises_witness :
  _extract_memory_regions [("ro", BIT 1)] [(MRef "ro" 0, "q7")]
    {[ "q0" := buffer_6 ]}
  = Raise (KeyError "q7").
Proof.
  apply (proj1 missing_buffer_raises "ro" (BIT 1) [] [] (MRef "ro" 0) "q7" []
           {[ "q0" := buffer_6 ]}).
  - apply Forall_nil_2.
  - reflexivity.
  - reflexivity.
Defined.

Lemma sort_by_offset_canonical_witness :
  sort_by_offset [MRef "ro" 2; MRef "ro" 0; MRef "ro" 1]
    ≡ₚ [MRef "ro" 2; MRef "ro" 0; MRef "ro" 1]
  /\ Sorted offset_le (sort_by_offset [MRef "ro" 2; MRef "ro" 0; MRef "ro" 1])
  /\ sort_by_offset [MRef "ro" 2; MRef "ro" 0; MRef "ro" 1]
     = sort_by_offset [MRef "ro" 0; MRef "ro" 1; MRef "ro" 2].
Proof.
  apply (sort_by_offset_canonical "ro").
  - repeat (apply Forall_cons; split; [reflexivity|]). apply Forall_nil_2.
  - apply (Permutation_cons_append [MRef "ro" 0; MRef "ro" 1] (MRef "ro" 2)).
Defined.

Lemma every_nth_demultiplexes_witness :
  (forall i s, every_nth i 3 [10; 11; 12; 13; 14; 15] !! s
               = [10; 11; 12; 13; 14; 15] !! (i + s * 3))
  /\ (forall j, every_nth (j mod 3) 3 [10; 11; 12; 13; 14; 15] !! (j / 3)
                = [10; 11; 12; 13; 14; 15] !! j)
  /\ (forall n i, length [10; 11; 12; 13; 14; 15] = n * 3 -> i < 3 ->
                  length (every_nth i 3 [10; 11; 12; 13; 14; 15]) = n).
Proof. apply (every_nth_demultiplexes [10; 11; 12; 13; 14; 15] 3). lia. Defined.

Lemma get_result_extracts_witness :
  get_result_memory words_to_complex32 words_to_i32 [("ro", BIT 1)]
    [(MRef "ro" 0, "q0")] {[ "q0" := {| dtype := "integer"; data := [1; 0]%Z |} ]}
  = _extract_memory_regions [("ro", BIT 1)] [(MRef "ro" 0, "q0")]
      (decode_buffer words_to_complex32 words_to_i32
         <$> {[ "q0" := {| dtype := "integer"; data := [1; 0]%Z |} ]}).
Proof.
  apply (get_result_extracts words_to_complex32 words_to_i32).
  apply map_non_empty_singleton.
Defined.

Lemma assembled_regions_shape_witness :
  exists num_shots,
    infer_num_shots (group_sources [("ro", BIT 2)] ro_two_buffers) buffers_q0_q1
    = Ok num_shots
    /\ Forall (fun item =>
                 exists spec,
                   dict_get item.1 [("ro", BIT 2)] = Some spec
                   /\ arr_shots item.2 = num_shots
                   /\ arr_width item.2 = ParameterSpec.length spec
                   /\ dict_get (ParameterSpec.type spec) dtype_table
                      = Some (arr_dtype item.2)
                   /\ ndarray_wf item.2) [("ro", region_3_2)].
Proof.
  apply (assembled_regions_shape [("ro", BIT 2)] ro_two_buffers buffers_q0_q1).
  - apply buffers_q0_q1_wf.
  - vm_compute. reflexivity.
Defined.

Lemma uncovered_column_uninit_witness :
  arr_cell region_3_3_gap 2 1 = Some Uninit.
Proof.
  apply (uncovered_column_uninit [("ro", BIT 3)] ro_with_gap buffers_q0_q1
           [("ro", region_3_3_gap)] "ro" region_3_3_gap 1).
  - apply (bool_decide_unpack _). vm_compute. exact I.
  - apply buffers_q0_q1_wf.
  - vm_compute. reflexivity.
  - reflexivity.
  - repeat (apply Forall_cons; split;
              [intros _ buf Hbuf; vm_compute in Hbuf; injection Hbuf as <-;
               simpl; lia|]).
    apply Forall_nil_2.
  - vm_compute. lia.
  - vm_compute. lia.
Defined.

Lemma ro_two_buffers_q1_alone :
  Forall (fun item : MemoryReference * string =>
            name item.1 = "ro" ->
            forall buf',
              buffers_q0_q1 !! item.2 = Some buf' ->
              offset item.1 <= 1 < offset item.1 + (widen buf').1 ->
              item.1 = MRef "ro" 1) ro_two_buffers.
Proof.
  apply Forall_cons. split.
  { intros _ buf Hbuf Hcover. vm_compute in Hbuf. injection Hbuf as <-.
    simpl in Hcover. lia. }
  apply Forall_cons. split; [by intros _ buf _ _|]. apply Forall_nil_2.
Defined.

Lemma covered_column_value_witness :
  exists vals v,
    (widen (IntBuffer (Dim1 [0; 0; 1]%Z))).2
      !! (0 + 2 * length (lane_set "ro" "q1" ro_two_buffers)) = Some vals
    /\ vals !! (1 - offset (MRef "ro" 1)) = Some v
    /\ arr_cell region_3_2 2 1 = Some (store (arr_dtype region_3_2) v).
Proof.
  apply (covered_column_value [("ro", BIT 2)] ro_two_buffers buffers_q0_q1
           [("ro", region_3_2)] "ro" region_3_2 (MRef "ro" 1) "q1"
           (IntBuffer (Dim1 [0; 0; 1]%Z)) 0 1).
  - apply (bool_decide_unpack _). vm_compute. exact I.
  - apply (bool_decide_unpack _). vm_compute. exact I.
  - apply buffers_q0_q1_wf.
  - vm_compute. reflexivity.
  - reflexivity.
  - reflexivity.
  - reflexivity.
  - reflexivity.
  - vm_compute. lia.
  - apply ro_two_buffers_q1_alone.
  - reflexivity.
  - vm_compute. lia.
Defined.

Lemma single_row_lane_replicated_witness :
  exists vals v,
    (widen (IntBuffer (Dim1 [7%Z]))).2 !! 0 = Some vals
    /\ vals !! (0 - offset (MRef "b" 0)) = Some v
    /\ arr_cell (NDArray int64 1 [[I64 7]; [I64 7]; [I64 7]]) 2 0
       = Some (store int64 v).
Proof.
  apply (single_row_lane_replicated [("a", BIT 1); ("b", BIT 1)]
           [(MRef "a" 0, "q0"); (MRef "b" 0, "q1")]
           {[ "q0" := IntBuffer (Dim1 [1; 0; 1]%Z); "q1" := IntBuffer (Dim1 [7%Z]) ]}
           [("a", NDArray int64 1 [[I64 1]; [I64 0]; [I64 1]]);
            ("b", NDArray int64 1 [[I64 7]; [I64 7]; [I64 7]])]
           "b" (NDArray int64 1 [[I64 7]; [I64 7]; [I64 7]]) (MRef "b" 0) "q1"
           (IntBuffer (Dim1 [7%Z])) 0 0).
  - apply (bool_decide_unpack _). vm_compute. exact I.
  - apply (bool_decide_unpack _). vm_compute. exact I.
  - intros key buf Hlookup.
    apply lookup_insert_Some in Hlookup as [[_ <-]|[_ [_ <-]%lookup_singleton_Some]];
      exact I.
  - vm_compute. reflexivity.
  - reflexivity.
  - reflexivity.
  - reflexivity.
  - reflexivity.
  - vm_compute. lia.
  - apply Forall_cons. split; [by intros [=]|].
    apply Forall_cons. split; [by intros _ buf _ _|]. apply Forall_nil_2.
  - reflexivity.
  - vm_compute. lia.
Defined.

Lemma shot_count_mismatch_raises_witness :
  is_ok (_extract_memory_regions [("a", BIT 1); ("b", BIT 1)]
           [(MRef "a" 0, "q0"); (MRef "b" 0, "q1")] buffers_3_and_2)
  = false.
Proof.
  apply (shot_count_mismatch_raises [("a", BIT 1); ("b", BIT 1)]
           [(MRef "a" 0, "q0"); (MRef "b" 0, "q1")] buffers_3_and_2
           (MRef "b" 0) "q1" (BIT 1) (IntBuffer (Dim1 [0; 1]%Z)) 3 2).
  - vm_compute. reflexivity.
  - apply elem_of_cons. right. apply elem_of_cons. by left.
  - reflexivity.
  - reflexivity.
  - reflexivity.
  - lia.
  - lia.
Defined.

Lemma raised_exceptions_have_causes_witness :
  (exists mref key spec buf,
      (mref, key) ∈ [(MRef "ro" 6, "q0")]
      /\ name mref = "ro" /\ offset mref = 6
      /\ dict_get "ro" [("ro", BIT 7)] = Some spec
      /\ ParameterSpec.length spec = 7
      /\ ({[ "q0" := buffer_2_2 ]} : gmap string buffer) !! key = Some buf
      /\ 8 = 6 + (widen buf).1
      /\ 7 < 8)
  /\ (exists mref key buf i,
        (mref, key) ∈ [(MRef "a" 0, "q0"); (MRef "b" 0, "q1")]
        /\ is_Some (dict_get (name mref) [("a", BIT 1); ("b", BIT 1)])
        /\ buffers_3_and_2 !! key = Some buf
        /\ sort_by_offset
             (lane_set (name mref) key [(MRef "a" 0, "q0"); (MRef "b" 0, "q1")])
           !! i = Some mref
        /\ 2 = length (every_nth i
                         (length (lane_set (name mref) key
                                    [(MRef "a" 0, "q0"); (MRef "b" 0, "q1")]))
                         (widen buf).2)
        /\ infer_num_shots
             (group_sources [("a", BIT 1); ("b", BIT 1)]
                [(MRef "a" 0, "q0"); (MRef "b" 0, "q1")]) buffers_3_and_2
           = Ok 3
        /\ 2 <> 3 /\ 2 <> 1).
Proof.
  split.
  - apply (raised_exceptions_have_causes [("ro", BIT 7)] [(MRef "ro" 6, "q0")]
             {[ "q0" := buffer_2_2 ]} (ValueError (AttemptedToFill "ro" 6 8 7))).
    + apply (bool_decide_unpack _). vm_compute. exact I.
    + vm_compute. reflexivity.
  - apply (raised_exceptions_have_causes [("a", BIT 1); ("b", BIT 1)]
             [(MRef "a" 0, "q0"); (MRef "b" 0, "q1")] buffers_3_and_2
             (ValueError (CouldNotBroadcast 2 3))).
    + apply (bool_decide_unpack _). vm_compute. exact I.
    + vm_compute. reflexivity.
Defined.

Lemma integer_slot_readout_witness :
  exists z,
    words_to_i32 [0; 0; 1]%Z !! 2 = Some z
    /\ arr_cell region_3_2 2 (offset (MRef "ro" 1))
       = Some (store (arr_dtype region_3_2) (SInt z)).
Proof.
  apply (integer_slot_readout words_to_complex32 words_to_i32 [("ro", BIT 2)]
           ro_two_buffers raw_q0_q1 [("ro", region_3_2)] "ro" region_3_2
           (MRef "ro" 1) "q1" {| dtype := "integer"; data := [0; 0; 1]%Z |}).
  - apply (bool_decide_unpack _). vm_compute. exact I.
  - apply (bool_decide_unpack _). vm_compute. exact I.
  - vm_compute. reflexivity.
  - reflexivity.
  - reflexivity.
  - reflexivity.
  - reflexivity.
  - apply Forall_cons. split.
    { intros _ _ raw' Hraw'. vm_compute in Hraw'. injection Hraw' as <-.
      left. simpl. lia. }
    apply Forall_cons. split; [by intros _ Hne; destruct Hne|]. apply Forall_nil_2.
  - reflexivity.
  - vm_compute. lia.
Defined.

Lemma complex_slot_readout_witness :
  exists re im,
    words_to_complex32 [3; 5]%Z !! 1 = Some (re, im)
    /\ arr_cell region_iq 1 (offset (MRef "iq" 0))
       = Some (store (arr_dtype region_iq) (SReal re))
    /\ arr_cell region_iq 1 (offset (MRef "iq" 0) + 1)
       = Some (store (arr_dtype region_iq) (SReal im)).
Proof.
  apply (complex_slot_readout words_to_complex32 words_to_i32 [("iq", REAL 2)]
           [(MRef "iq" 0, "q0_iq")] raw_capture [("iq", region_iq)] "iq" region_iq
           (MRef "iq" 0) "q0_iq" {| dtype := "complex"; data := [3; 5]%Z |}).
  - apply (bool_decide_unpack _). vm_compute. exact I.
  - apply (bool_decide_unpack _). vm_compute. exact I.
  - vm_compute. reflexivity.
  - reflexivity.
  - reflexivity.
  - reflexivity.
  - reflexivity.
  - apply Forall_cons. split; [by intros _ Hne; destruct Hne|]. apply Forall_nil_2.
  - reflexivity.
  - vm_compute. lia.
Defined.
End FurtherWitnesses.

(** * The order of the failures on concrete inputs *)

Section PrecedenceInstances.
#[local] Existing Instance Q_model.

Lemma region_overflow_detected_witness :
  _extract_memory_regions [("aux", BIT 1); ("ro", BIT 7)] ro_aux_and_ro
    buffers_2_and_2_2
  = Raise (ValueError (AttemptedToFill "ro" 6 8 7))
  /\ exists mref key spec buf,
      (mref, key) ∈ ro_aux_and_ro
      /\ dict_get (name mref) [("aux", BIT 1); ("ro", BIT 7)] = Some spec
      /\ buffers_2_and_2_2 !! key = Some buf
      /\ ParameterSpec.length spec < offset mref + (widen buf).1
      /\ _extract_memory_regions [("aux", BIT 1); ("ro", BIT 7)] ro_aux_and_ro
           buffers_2_and_2_2
         = Raise (ValueError (AttemptedToFill (name mref) (offset mref)
                                (offset mref + (widen buf).1)
                                (ParameterSpec.length spec))).
Proof.
  split.
  - apply (proj1 (proj2 (proj2 region_overflow_detected))
             [("aux", BIT 1); ("ro", BIT 7)] ro_aux_and_ro buffers_2_and_2_2 2
             [("aux", BIT 1)] "ro" (BIT 7) []
             (NDArray int64 7 (replicate 2 (replicate 7 Uninit)))
             [] "q1" [MRef "ro" 6] []
             (NDArray int64 7 (replicate 2 (replicate 7 Uninit)))
             buffer_2_2 [] (MRef "ro" 6) []
             (NDArray int64 7 (replicate 2 (replicate 7 Uninit)))).
    + apply (bool_decide_unpack _). vm_compute. exact I.
    + vm_compute. reflexivity.
    + reflexivity.
    + apply Forall_cons. split; [vm_compute; reflexivity | apply Forall_nil_2].
    + vm_compute. reflexivity.
    + vm_compute. reflexivity.
    + reflexivity.
    + reflexivity.
    + reflexivity.
    + reflexivity.
    + vm_compute. lia.
  - apply (proj1 (proj2 (proj2 (proj2 region_overflow_detected)))
             [("aux", BIT 1); ("ro", BIT 7)] ro_aux_and_ro buffers_2_and_2_2 2).
    + apply (bool_decide_unpack _). vm_compute. exact I.
    + vm_compute. reflexivity.
    + apply (bool_decide_unpack _). vm_compute. exact I.
    + apply Forall_cons. split.
      { intros _. exists (IntBuffer (Dim1 [1; 0]%Z)).
        split; [reflexivity | vm_compute; reflexivity]. }
      apply Forall_cons. split; [|apply Forall_nil_2].
      intros _. exists buffer_2_2. split; [reflexivity | vm_compute; reflexivity].
    + apply Exists_cons. right. apply Exists_cons. left.
      exists (BIT 7), buffer_2_2.
      split; [reflexivity|]. split; [reflexivity | vm_compute; lia].
Defined.

(** A lane that overflows its region in calls that end with another
    exception: shot-count inference fails before any lane is placed, or
    the allocation of a region declared earlier does. *)
Lemma overflow_error_preempted :
  lane_overflows [("unused", REAL 2); ("ro", BIT 7)]
    ({[ "q0" := buffer_2_2 ]} : gmap string buffer) (MRef "ro" 6, "q0")
  /\ _extract_memory_regions [("unused", REAL 2); ("ro", BIT 7)]
       [(MRef "ro" 6, "q0")] {[ "q0" := buffer_2_2 ]}
     = Raise StopIteration
  /\ lane_overflows [("x", OCTAL 1); ("ro", BIT 7)] buffers_2_and_2_2
       (MRef "ro" 6, "q1")
  /\ _extract_memory_regions [("x", OCTAL 1); ("ro", BIT 7)]
       [(MRef "x" 0, "q0"); (MRef "ro" 6, "q1")] buffers_2_and_2_2
     = Raise (ValueError (UnexpectedMemoryType "OCTAL"))
  /\ ~ (forall memory_descriptors ro_sources buffers mref key spec buf,
          (mref, key) ∈ ro_sources ->
          dict_get (name mref) memory_descriptors = Some spec ->
          buffers !! key = Some buf ->
          ParameterSpec.length spec < offset mref + (widen buf).1 ->
          _extract_memory_regions memory_descriptors ro_sources buffers
          = Raise (ValueError (AttemptedToFill (name mref) (offset mref)
                                 (offset mref + (widen buf).1)
                                 (ParameterSpec.length spec)))).
Proof.
  split; [|split; [|split; [|split]]].
  - exists (BIT 7), buffer_2_2.
    split; [reflexivity|]. split; [reflexivity | vm_compute; lia].
  - vm_compute. reflexivity.
  - exists (BIT 7), buffer_2_2.
    split; [reflexivity|]. split; [reflexivity | vm_compute; lia].
  - vm_compute. reflexivity.
  - intros Hclaim.
    specialize (Hclaim [("unused", REAL 2); ("ro", BIT 7)] [(MRef "ro" 6, "q0")]
                  {[ "q0" := buffer_2_2 ]} (MRef "ro" 6) "q0" (BIT 7) buffer_2_2).
    assert (_extract_memory_regions [("unused", REAL 2); ("ro", BIT 7)]
              [(MRef "ro" 6, "q0")] {[ "q0" := buffer_2_2 ]}
            = Raise StopIteration) as Hstop by (vm_compute; reflexivity).
    rewrite Hstop in Hclaim.
    enough (@Raise (dict ndarray) StopIteration
            = Raise (ValueError (AttemptedToFill "ro" 6 8 7))) as Habs by done.
    apply Hclaim.
    + apply elem_of_cons. by left.
    + reflexivity.
    + reflexivity.
    + vm_compute. lia.
Qed.

Lemma unsupported_element_type_witness :
  _extract_memory_regions [("ro", BIT 1); ("x", OCTAL 1)]
    [(MRef "ro" 0, "q0")] {[ "q0" := buffer_6 ]}
  = Raise (ValueError (UnexpectedMemoryType "OCTAL"))
  /\ exists rname' spec',
      dict_get rname' [("ro", BIT 1); ("x", OCTAL 1)] = Some spec'
      /\ (ParameterSpec.type spec' ∉ ["BIT"; "INTEGER"; "REAL"; "FLOAT"])
      /\ _extract_memory_regions [("ro", BIT 1); ("x", OCTAL 1)]
           [(MRef "ro" 0, "q0")] {[ "q0" := buffer_6 ]}
         = Raise (ValueError (UnexpectedMemoryType (ParameterSpec.type spec'))).
Proof.
  assert (ParameterSpec.type (OCTAL 1) ∉ ["BIT"; "INTEGER"; "REAL"; "FLOAT"])
    as Hoctal.
  { simpl. rewrite !not_elem_of_cons.
    repeat split; try (by intros [=]). apply not_elem_of_nil. }
  split.
  - apply (proj1 (proj2 (proj2 unsupported_element_type))
             [("ro", BIT 1); ("x", OCTAL 1)] [(MRef "ro" 0, "q0")]
             {[ "q0" := buffer_6 ]} 6 [("ro", BIT 1)] "x" (OCTAL 1) []).
    + apply (bool_decide_unpack _). vm_compute. exact I.
    + vm_compute. reflexivity.
    + reflexivity.
    + apply Forall_cons. split; [vm_compute; reflexivity | apply Forall_nil_2].
    + exact Hoctal.
  - apply (proj1 (proj2 (proj2 (proj2 unsupported_element_type)))
             [("ro", BIT 1); ("x", OCTAL 1)] [(MRef "ro" 0, "q0")]
             {[ "q0" := buffer_6 ]} 6 "x" (OCTAL 1)).
    + apply (bool_decide_unpack _). vm_compute. exact I.
    + vm_compute. reflexivity.
    + apply Forall_cons. split; [|apply Forall_nil_2].
      intros _. exists buffer_6. split; [reflexivity | vm_compute; reflexivity].
    + apply Forall_cons. split; [|apply Forall_nil_2].
      intros (spec & buf & Hspec & Hbuf & Hover).
      vm_compute in Hspec. injection Hspec as <-.
      vm_compute in Hbuf. injection Hbuf as <-.
      vm_compute in Hover. lia.
    + reflexivity.
    + exact Hoctal.
Defined.

(** A declared type outside the four tags in calls that end with another
    exception: a lane of a region declared earlier overflows, or the shot
    count cannot be inferred. *)
Lemma unsupported_type_error_preempted :
  dict_get "x" [("ro", BIT 7); ("x", OCTAL 1)] = Some (OCTAL 1)
  /\ (ParameterSpec.type (OCTAL 1) ∉ ["BIT"; "INTEGER"; "REAL"; "FLOAT"])
  /\ _extract_memory_regions [("ro", BIT 7); ("x", OCTAL 1)]
       [(MRef "ro" 6, "q0")] {[ "q0" := buffer_2_2 ]}
     = Raise (ValueError (AttemptedToFill "ro" 6 8 7))
  /\ _extract_memory_regions [("x", OCTAL 1)] [] (∅ : gmap string buffer)
     = Raise StopIteration
  /\ ~ (forall memory_descriptors ro_sources buffers rname spec,
          dict_get rname memory_descriptors = Some spec ->
          ParameterSpec.type spec ∉ ["BIT"; "INTEGER"; "REAL"; "FLOAT"] ->
          _extract_memory_regions memory_descriptors ro_sources buffers
          = Raise (ValueError (UnexpectedMemoryType (ParameterSpec.type spec)))).
Proof.
  assert (ParameterSpec.type (OCTAL 1) ∉ ["BIT"; "INTEGER"; "REAL"; "FLOAT"])
    as Hoctal.
  { simpl. rewrite !not_elem_of_cons.
    repeat split; try (by intros [=]). apply not_elem_of_nil. }
  split; [reflexivity|]. split; [exact Hoctal|].
  split; [vm_compute; reflexivity|]. split; [vm_compute; reflexivity|].
  intros Hclaim.
  specialize (Hclaim [("ro", BIT 7); ("x", OCTAL 1)] [(MRef "ro" 6, "q0")]
                {[ "q0" := buffer_2_2 ]} "x" (OCTAL 1) eq_refl Hoctal).
  vm_compute in Hclaim. discriminate.
Qed.
End PrecedenceInstances.
